(** * Warframe market set-profit scanner: embedding and verification

    A shallow embedding of [warframe_profit_calc.py] (the rate-limited
    client [WarframeMarketAPI] and the engine [WarframeProfitCalculator])
    followed by the properties proved about it.

    Conventions of the embedding
    - Time is an integer number of milliseconds; [REQUEST_DELAY = 0.34]
      seconds is [340].
    - JSON payloads are records whose mandatory fields are the keys the
      code subscripts with [d['k']] and whose optional fields are the keys
      it reads with [in] or [.get].
    - The remote service is a [World]: for every URL and every request
      number it says what [session.get] does.
    - Python state ([self.*] of both classes), the wall clock and the
      log of network sends are threaded through a state-and-exception
      monad; [run_scan] also returns the snapshots it hands to the
      progress callback. *)

From Stdlib Require Import ZArith String List Bool Lia.
From stdpp Require Import base option list gmap strings sorting pretty.

Local Open Scope string_scope.
Local Open Scope Z_scope.

(** ** Python values used by the program *)

(** Exceptions that can travel through the code.  The first four are
    subclasses of [requests.exceptions.RequestException]. *)
Inductive exn : Type :=
  | ConnectionError
  | ReadTimeout
  | HTTPError (status : Z)
  | JSONDecodeError
  | KeyError (key : string)
  | OtherException (what : string).

Definition is_RequestException (e : exn) : bool :=
  match e with
  | ConnectionError | ReadTimeout | HTTPError _ | JSONDecodeError => true
  | KeyError _ | OtherException _ => false
  end.

(** An entry of the lightweight item list ([/items]). *)
Record item_summary : Type := mk_summary {
  sm_id : string;                 (* item['id'] *)
  sm_slug : string;               (* item['slug'] *)
  sm_name : option string         (* item.get('i18n',{}).get('en',{}).get('name') *)
}.

(** The detail document of one item ([/items/<slug>]). *)
Record item_details : Type := mk_details {
  d_slug : string;                (* d['slug'] *)
  d_name : string;                (* d['i18n']['en']['name'] *)
  setParts : option (list string);(* present iff 'setParts' in d *)
  setRoot : option bool;          (* d.get('setRoot', False) *)
  quantityInSet : option Z        (* d.get('quantityInSet', 1); null is None *)
}.

(** One order of an order book ([/orders/item/<slug>]). *)
Record order : Type := mk_order {
  o_type : string;                (* o['type'] *)
  platinum : Z;                   (* o['platinum'] *)
  user_status : string            (* o['user']['status'] *)
}.

(** What [get_lowest_sell_price] returns: an order's price or
    [float('inf')]. *)
Inductive price : Type :=
  | Platinum (p : Z)
  | Inf.

(** [a < b] on prices, with [float('inf')] above every integer. *)
Definition price_ltb (a b : price) : bool :=
  match a, b with
  | Platinum x, Platinum y => x <? y
  | Platinum _, Inf => true
  | Inf, _ => false
  end.

(** An entry of [component_data]. *)
Record component : Type := mk_component {
  c_name : string;                (* 'name' *)
  c_price : string;               (* 'price': "{qty}x {price} = {cost}" *)
  unit_price : Z;                 (* 'unit_price' *)
  c_qty : Z                       (* 'qty' *)
}.

(** The dictionary returned by [calculate_set_profit]. *)
Record evaluation : Type := mk_evaluation {
  name : string;
  set_price : Z;
  cost : Z;
  profit : Z;
  trades : Z;
  components : list component
}.

(** ** Python library functions *)

Module Py.

(** [sub in s] on strings. *)
Fixpoint contains (sub s : string) : bool :=
  String.prefix sub s ||
  match s with
  | EmptyString => false
  | String _ s' => contains sub s'
  end.

(** [list.sort(key=...)] is a stable sort; on integer keys it is the
    insertion sort that puts an element in front of the first one whose
    key is not smaller. *)
Fixpoint insert_by {A} (key : A -> Z) (x : A) (l : list A) : list A :=
  match l with
  | [] => [x]
  | y :: l' => if key x <=? key y then x :: l else y :: insert_by key x l'
  end.

Definition sort_by {A} (key : A -> Z) (l : list A) : list A :=
  fold_right (insert_by key) [] l.

(** [sum(...)] over integers. *)
Definition sum (l : list Z) : Z := fold_left Z.add l 0.

(** [f"{n}"] for an integer. *)
Definition str (n : Z) : string := pretty n.

End Py.

(** ** The remote service *)

Inductive url : Type :=
  | ITEMS_URL                          (* {API_BASE_URL}/items *)
  | ITEM_URL (url_name : string)       (* {ITEMS_URL}/{url_name} *)
  | ORDERS_URL (url_name : string).    (* {API_BASE_URL}/orders/item/{url_name} *)

(** The payload found under the ['data'] key of each endpoint. *)
Definition payload (u : url) : Type :=
  match u with
  | ITEMS_URL => list item_summary
  | ITEM_URL _ => item_details
  | ORDERS_URL _ => list order
  end.

(** The value of [response.json()]: a falsy document ([{}], [null], ...),
    an envelope with a ['data'] entry, or a non-empty object without
    one. *)
Inductive json (P : Type) : Type :=
  | JFalsy
  | JData (data : P)
  | JNoData.
Arguments JFalsy {P}.
Arguments JData {P} data.
Arguments JNoData {P}.

(** What [session.get(url)] does: raise, or return a response with a
    status code and a body that decodes as JSON or does not. *)
Inductive reply (P : Type) : Type :=
  | GetRaises (e : exn)
  | Response (status_code : Z) (body : option (json P)).
Arguments GetRaises {P} e.
Arguments Response {P} status_code body.

(** The service and the network: the reply to the [n]-th request of the
    process when it asks for [u], and how long that request takes. *)
Record World : Type := mk_world {
  serve : forall u : url, nat -> reply (payload u);
  latency : nat -> Z
}.

(** ** Program state and the monad *)

Record state : Type := mk_state {
  (* WarframeMarketAPI *)
  last_request_time : Z;
  item_cache : gmap string item_details;
  (* WarframeProfitCalculator *)
  all_items_map : gmap string string;
  all_items_data : list item_summary;
  (* environment *)
  now : Z;                                 (* time.time() *)
  sends : list (Z * url)                   (* start time of every session.get *)
}.

(** [WarframeProfitCalculator()] created when the clock shows [t]. *)
Definition init_state (t : Z) : state :=
  mk_state 0 ∅ ∅ [] t [].

Inductive result (A : Type) : Type :=
  | Ok (a : A)
  | Raise (e : exn).
Arguments Ok {A} a.
Arguments Raise {A} e.

Definition M (A : Type) : Type := state -> result (A * state).

Definition ret {A} (a : A) : M A := fun st => Ok (a, st).

Definition raise {A} (e : exn) : M A := fun _ => Raise e.

Definition bind {A B} (m : M A) (k : A -> M B) : M B :=
  fun st =>
    match m st with
    | Ok (a, st') => k a st'
    | Raise e => Raise e
    end.

Definition gets {A} (f : state -> A) : M A := fun st => Ok (f st, st).

Definition modify (f : state -> state) : M unit := fun st => Ok (tt, f st).

Declare Scope py_scope.
Delimit Scope py_scope with py.
Notation "'let*' x ':=' m 'in' k" := (bind m (fun x => k))
  (at level 10, x name, m at level 100, k at level 200,
   format "'[v' 'let*'  x  :=  m  'in' '/' k ']'") : py_scope.
Notation "m '>>' k" := (bind m (fun _ => k))
  (at level 100, k at level 200, right associativity) : py_scope.
Local Open Scope py_scope.

Definition set_last_request_time (t : Z) (st : state) : state :=
  mk_state t (item_cache st) (all_items_map st) (all_items_data st)
           (now st) (sends st).

Definition set_item_cache (c : gmap string item_details) (st : state) : state :=
  mk_state (last_request_time st) c (all_items_map st) (all_items_data st)
           (now st) (sends st).

Definition set_all_items_map (m : gmap string string) (st : state) : state :=
  mk_state (last_request_time st) (item_cache st) m (all_items_data st)
           (now st) (sends st).

Definition set_all_items_data (l : list item_summary) (st : state) : state :=
  mk_state (last_request_time st) (item_cache st) (all_items_map st) l
           (now st) (sends st).

(** [time.sleep(d)] and the passing of time during a request. *)
Definition advance (d : Z) (st : state) : state :=
  mk_state (last_request_time st) (item_cache st) (all_items_map st)
           (all_items_data st) (now st + d) (sends st).

(** Ghost: a request for [u] leaves the machine now. *)
Definition log_send (u : url) (st : state) : state :=
  mk_state (last_request_time st) (item_cache st) (all_items_map st)
           (all_items_data st) (now st) (sends st ++ [(now st, u)]).

(** ** [WarframeMarketAPI] *)

Definition REQUEST_DELAY : Z := 340.

(** [response.raise_for_status()] raises [HTTPError] for the client and
    server error classes, 400 to 599. *)
Definition raise_for_status (status_code : Z) : option exn :=
  if (400 <=? status_code) && (status_code <? 600)
  then Some (HTTPError status_code)
  else None.

(** [except requests.exceptions.RequestException: return None]; any other
    exception leaves [_get]. *)
Definition except_RequestException {A} (e : exn) (st : state)
  : result (option A * state) :=
  if is_RequestException e then Ok (None, st) else Raise e.

(** [_get]: the whole body runs under [self.lock], so calls never
    overlap and a run of the process is a sequence of them.  The
    timestamp is assigned after [session.get] has returned and before
    [raise_for_status]; [response.json()] raises [JSONDecodeError], a
    [RequestException], on a body that is not JSON. *)
Definition _get (w : World) (u : url) : M (option (json (payload u))) :=
  fun st =>
    let elapsed := now st - last_request_time st in
    let st :=
      if elapsed <? REQUEST_DELAY
      then advance (REQUEST_DELAY - elapsed) st
      else st in
    (* try: response = self.session.get(url) *)
    let n := length (sends st) in
    let st := advance (latency w n) (log_send u st) in
    match serve w u n with
    | GetRaises e => except_RequestException e st
    | Response status_code body =>
        let st := set_last_request_time (now st) st in
        match raise_for_status status_code with
        | Some e => except_RequestException e st
        | None =>
            match body with
            | None => except_RequestException JSONDecodeError st
            | Some data => Ok (Some data, st)
            end
        end
    end.

(** [if data:] *)
Definition truthy {P} (data : option (json P)) : bool :=
  match data with
  | Some (JData _) | Some JNoData => true
  | Some JFalsy | None => false
  end.

(** [data['data']] *)
Definition subscript_data {P} (data : option (json P)) : M P :=
  match data with
  | Some (JData d) => ret d
  | _ => raise (KeyError "data")
  end.

Definition get_all_items (w : World) : M (list item_summary) :=
  let* data := (_get w ITEMS_URL : M (option (json (list item_summary)))) in
  if truthy data then subscript_data data else ret [].

Definition get_item_details (w : World) (url_name : string)
  : M (option item_details) :=
  let* cache := gets item_cache in
  match cache !! url_name with
  | Some cached => ret (Some cached)
  | None =>
      let* data :=
        (_get w (ITEM_URL url_name) : M (option (json item_details))) in
      if truthy data then
        let* item_data := subscript_data data in
        modify (fun st => set_item_cache (<[url_name := item_data]> (item_cache st)) st) >>
        ret (Some item_data)
      else ret None
  end.

Definition get_orders (w : World) (url_name : string) : M (list order) :=
  let* data :=
    (_get w (ORDERS_URL url_name) : M (option (json (list order)))) in
  if truthy data then subscript_data data else ret [].

(** ** [WarframeProfitCalculator] *)

Definition initialize_items (w : World) : M unit :=
  let* data := gets all_items_data in
  match data with
  | _ :: _ => ret tt
  | [] =>
      let* items := get_all_items w in
      modify (set_all_items_data items) >>
      modify (fun st =>
        set_all_items_map
          (fold_left (fun m item => <[sm_id item := sm_slug item]> m)
                     items (all_items_map st)) st)
  end.

(** [o['type'] == 'sell' and o['user']['status'] in ['ingame', 'online']] *)
Definition valid_order (o : order) : bool :=
  String.eqb (o_type o) "sell" &&
  (String.eqb (user_status o) "ingame" || String.eqb (user_status o) "online").

Definition get_lowest_sell_price (orders : list order) : price :=
  let valid_orders := List.filter valid_order orders in
  match valid_orders with
  | [] => Inf
  | _ :: _ =>
      match Py.sort_by platinum valid_orders with
      | first :: _ => Platinum (platinum first)
      | [] => Inf   (* not reached: sorting keeps the length *)
      end
  end.

(** [p_details.get('setRoot', False)] used as a condition. *)
Definition is_set_root (d : item_details) : bool := default false (setRoot d).

(** The loop [for pid in parts_ids] of [calculate_set_profit], with the
    two variables it updates. *)
Fixpoint parts_loop (w : World) (parts_ids : list string)
    (components : list item_details) (set_root_item : option item_details)
  : M (list item_details * option item_details) :=
  match parts_ids with
  | [] => ret (components, set_root_item)
  | pid :: parts_ids' =>
      let* ids := gets all_items_map in
      match ids !! pid with
      | None => parts_loop w parts_ids' components set_root_item
      | Some p_slug =>
          let* p_details := get_item_details w p_slug in
          match p_details with
          | None => parts_loop w parts_ids' components set_root_item
          | Some p_details =>
              if is_set_root p_details
              then parts_loop w parts_ids' components (Some p_details)
              else parts_loop w parts_ids' (components ++ [p_details]) set_root_item
          end
      end
  end.

(** [qty = comp.get('quantityInSet', 1); if not qty: qty = 1] *)
Definition quantity_of (comp : item_details) : Z :=
  let qty := default 1 (quantityInSet comp) in
  if qty =? 0 then 1 else qty.

(** The loop [for comp in components]; [None] is its [return None]. *)
Fixpoint components_loop (w : World) (components : list item_details)
    (total_cost : Z) (component_data : list component)
  : M (option (Z * list component)) :=
  match components with
  | [] => ret (Some (total_cost, component_data))
  | comp :: components' =>
      let qty := quantity_of comp in
      let* orders := get_orders w (d_slug comp) in
      match get_lowest_sell_price orders with
      | Inf => ret None
      | Platinum price =>
          let cost := price * qty in
          components_loop w components' (total_cost + cost)
            (component_data ++
             [ {| c_name := d_name comp;
                  c_price := Py.str qty +:+ "x " +:+ Py.str price +:+ " = " +:+ Py.str cost;
                  unit_price := price;
                  c_qty := qty |} ])
      end
  end.

(** The two steps that settle [set_root_item] after the parts loop. *)
Definition resolve_root (set_details : item_details)
    (set_root_item : option item_details) : option item_details :=
  match set_root_item with
  | Some root => Some root
  | None => if is_set_root set_details then Some set_details else None
  end.

(** Steps 3 and 4 of [calculate_set_profit], from [set_orders = ...] to
    the returned dictionary. *)
Definition price_set (w : World) (set_root_item : item_details)
    (components : list item_details) : M (option evaluation) :=
  let* set_orders := get_orders w (d_slug set_root_item) in
  match get_lowest_sell_price set_orders with
  | Inf => ret None
  | Platinum set_price =>
  let* priced := components_loop w components 0 [] in
  match priced with
  | None => ret None
  | Some (total_cost, component_data) =>
      let profit := set_price - total_cost in
      let trades := Py.sum (map c_qty component_data) + 1 in
      ret (Some {| name := d_name set_root_item;
                   set_price := set_price;
                   cost := total_cost;
                   profit := profit;
                   trades := trades;
                   components := component_data |})
  end end.

Definition calculate_set_profit (w : World) (set_item_summary : item_summary)
  : M (option evaluation) :=
  let set_slug := sm_slug set_item_summary in
  (* 1. set details *)
  let* set_details := get_item_details w set_slug in
  match set_details with
  | None => ret None
  | Some set_details =>
  match setParts set_details with
  | None => ret None
  | Some parts_ids =>
  (* 2. components and root *)
  let* parts := parts_loop w parts_ids [] None in
  match resolve_root set_details (snd parts) with
  | None => ret None
  | Some set_root_item =>
  (* 3. and 4. prices *)
  price_set w set_root_item (fst parts)
  end end end.

(** The loop [for i, item in enumerate(target_sets)] of [run_scan].
    [progress_callback] says whether a callback was passed; [delivered]
    collects the lists the callback is called with, oldest first. *)
Fixpoint scan_loop (w : World) (progress_callback : bool)
    (target_sets : list item_summary)
    (results : list evaluation) (delivered : list (list evaluation))
  : M (list evaluation * list (list evaluation)) :=
  match target_sets with
  | [] => ret (results, delivered)
  | item :: target_sets' =>
      let* res := calculate_set_profit w item in
      match res with
      | Some res =>
          if 0 <? profit res then
            let results := Py.sort_by cost (results ++ [res])%list in
            let delivered :=
              if progress_callback then (delivered ++ [results])%list else delivered in
            scan_loop w progress_callback target_sets' results delivered
          else scan_loop w progress_callback target_sets' results delivered
      | None => scan_loop w progress_callback target_sets' results delivered
      end
  end.

(** ['Prime Set' in i.get('i18n', {}).get('en', {}).get('name', '')] *)
Definition is_prime_set (i : item_summary) : bool :=
  Py.contains "Prime Set" (default "" (sm_name i)).

(** [run_scan] returns [results] and, next to it, the calls it made to
    [progress_callback]. *)
Definition run_scan (w : World) (progress_callback : bool)
  : M (list evaluation * list (list evaluation)) :=
  initialize_items w >>
  let* data := gets all_items_data in
  let target_sets := List.filter is_prime_set data in
  scan_loop w progress_callback target_sets [] [].

(** ** Vocabulary of the specification *)

(** Non-decreasing order of the keys. *)
Definition key_le {A} (key : A -> Z) (a b : A) : Prop := key a <= key b.

(** The orders the spec calls valid: a sell order of a reachable seller. *)
Definition is_valid_sell (o : order) : Prop :=
  o_type o = "sell" /\ (user_status o = "online" \/ user_status o = "ingame").

(** A reply that counts as a transport failure: [session.get] raises a
    [RequestException], the status is a client or server error, or the
    body is not JSON. *)
Definition transport_failure {P} (r : reply P) : Prop :=
  match r with
  | GetRaises e => is_RequestException e = true
  | Response status_code body => 400 <= status_code < 600 \/ body = None
  end.

(** A reply of normal operation: [requests] raises nothing but its own
    exceptions, and a body that is read has its payload under ['data']
    or is empty. *)
Definition regular {P} (r : reply P) : bool :=
  match r with
  | GetRaises e => is_RequestException e
  | Response status_code (Some JNoData) =>
      (400 <=? status_code) && (status_code <? 600)
  | Response _ _ => true
  end.

Definition normal_operation (w : World) : Prop :=
  forall u n, regular (serve w u n) = true.

(** Start times of consecutive sends are at least [REQUEST_DELAY] apart. *)
Fixpoint spaced (times : list Z) : Prop :=
  match times with
  | t1 :: (t2 :: _) as rest => REQUEST_DELAY <= t2 - t1 /\ spaced rest
  | _ => True
  end.

(** The moment the next request leaves: now, or when the delay since
    the last recorded request is over. *)
Definition send_time (st : state) : Z :=
  if now st - last_request_time st <? REQUEST_DELAY
  then last_request_time st + REQUEST_DELAY
  else now st.

(** The state in which [_get] leaves everything but the client's
    timestamp. *)
Definition after_send (w : World) (u : url) (st : state) : state :=
  mk_state (last_request_time st) (item_cache st) (all_items_map st)
           (all_items_data st)
           (send_time st + latency w (length (sends st)))
           (sends st ++ [(send_time st, u)])%list.

(** The send log is spaced and the recorded time is not before the
    last send. *)
Definition rate_limited (st : state) : Prop :=
  spaced (map fst (sends st)) /\
  forall t0, last (map fst (sends st)) = Some t0 -> t0 <= last_request_time st.

(** The details the parts loop obtains, in order: those of the declared
    ids that are in the id index and whose details can be had. *)
Fixpoint fetched_parts (w : World) (parts_ids : list string)
  : M (list item_details) :=
  match parts_ids with
  | [] => ret []
  | pid :: parts_ids' =>
      let* ids := gets all_items_map in
      match ids !! pid with
      | None => fetched_parts w parts_ids'
      | Some p_slug =>
          let* p_details := get_item_details w p_slug in
          let* rest := fetched_parts w parts_ids' in
          ret (match p_details with
               | Some p => p :: rest
               | None => rest
               end)
      end
  end.

(** The last root-flagged part, or [set_root_item] when there is none. *)
Definition flagged_root (set_root_item : option item_details)
    (fetched : list item_details) : option item_details :=
  match last (List.filter is_set_root fetched) with
  | Some root => Some root
  | None => set_root_item
  end.

(** The parts without the root flag. *)
Definition unflagged (fetched : list item_details) : list item_details :=
  List.filter (fun p => negb (is_set_root p)) fetched.

(** Starting in [st], the order books of [slugs] are fetched one after
    the other, ending in [st']; each has a valid sell order, and
    [prices] are their lowest valid sell prices. *)
Fixpoint books_priced (w : World) (slugs : list string) (prices : list Z)
    (st st' : state) : Prop :=
  match slugs, prices with
  | [], [] => st' = st
  | slug :: slugs', p :: prices' =>
      exists orders st1,
        get_orders w slug st = Ok (orders, st1) /\
        (exists o, In o orders /\ is_valid_sell o /\ platinum o = p) /\
        (forall o, In o orders -> is_valid_sell o -> p <= platinum o) /\
        books_priced w slugs' prices' st1 st'
  | _, _ => False
  end.

(** From [st], the candidate [item] gets as far as pricing: its details
    name parts, the fetched parts and the root policy give [root] and
    [components], and the state is then [st2]. *)
Definition resolves (w : World) (item : item_summary) (st : state)
    (root : item_details) (components : list item_details) (st2 : state)
  : Prop :=
  exists set_details st1 parts_ids fetched,
    get_item_details w (sm_slug item) st = Ok (Some set_details, st1) /\
    setParts set_details = Some parts_ids /\
    fetched_parts w parts_ids st1 = Ok (fetched, st2) /\
    resolve_root set_details (flagged_root None fetched) = Some root /\
    components = unflagged fetched.

(** [unit_price * qty] of one line. *)
Definition line_cost (c : component) : Z := unit_price c * c_qty c.

(** The candidates evaluated one after the other. *)
Fixpoint evaluate_all (w : World) (target_sets : list item_summary)
  : M (list (option evaluation)) :=
  match target_sets with
  | [] => ret []
  | item :: target_sets' =>
      let* res := calculate_set_profit w item in
      let* rest := evaluate_all w target_sets' in
      ret (res :: rest)
  end.

(** The evaluations that are present and have a positive profit. *)
Definition profitable (outcomes : list (option evaluation)) : list evaluation :=
  List.filter (fun ev => 0 <? profit ev) (omap id outcomes).

(** [results.append(res); results.sort(key=cost)] *)
Definition insert_result (results : list evaluation) (res : evaluation)
  : list evaluation :=
  Py.sort_by cost (results ++ [res])%list.

(** The result list after each insertion of [new] into [results]. *)
Fixpoint snapshots (results : list evaluation) (new : list evaluation)
  : list (list evaluation) :=
  match new with
  | [] => []
  | res :: new' =>
      insert_result results res :: snapshots (insert_result results res) new'
  end.

(** Every request of the service comes back with a response, after some
    time. *)
Definition responsive (w : World) : Prop :=
  forall u n,
    (exists status_code body, serve w u n = Response status_code body) /\
    0 <= latency w n.

(** [p] is the price of a valid sell order of the book. *)
Definition valid_price (orders : list order) (p : Z) : Prop :=
  exists o, In o orders /\ is_valid_sell o /\ platinum o = p.

(** [a <= b] on prices. *)
Definition price_le (a b : price) : Prop := price_ltb b a = false.

(** The parts of the state that only [initialize_items] writes. *)
Definition same_catalog (st st' : state) : Prop :=
  all_items_map st' = all_items_map st /\
  all_items_data st' = all_items_data st.

(** The id index agrees with the item list: an id leads to the slug of
    the last item that has it. *)
Definition indexed (st : state) : Prop :=
  forall id,
    all_items_map st !! id
    = sm_slug <$> last (List.filter (fun i => String.eqb (sm_id i) id)
                                    (all_items_data st)).

(** A request that a client with cache [cache] may send while its item
    list is loaded: an order book, or the details of a slug that is not
    cached. *)
Definition needed_request (cache : gmap string item_details) (u : url) : Prop :=
  match u with
  | ITEMS_URL => False
  | ITEM_URL url_name => cache !! url_name = None
  | ORDERS_URL _ => True
  end.

(** The requests sent since [st0] were needed by a client with the cache
    of [st0], which is still part of the cache. *)
Definition only_needed (st0 st : state) : Prop :=
  item_cache st0 ⊆ item_cache st /\
  exists new,
    sends st = (sends st0 ++ new)%list /\
    Forall (fun tu => needed_request (item_cache st0) (snd tu)) new.

(** A line as the pricing loop writes it: the quantity is not zero and
    the text shows quantity, unit price and their product. *)
Definition well_formed_line (c : component) : Prop :=
  c_qty c <> 0 /\
  c_price c
  = Py.str (c_qty c) +:+ "x " +:+ Py.str (unit_price c) +:+ " = "
      +:+ Py.str (unit_price c * c_qty c).

(** Since [st0] the clock has not gone back, the timestamp is not in
    the future, and what was sent was sent at or after the time of
    [st0]. *)
Definition timed (st0 st : state) : Prop :=
  last_request_time st <= now st /\
  now st0 <= now st /\
  exists new,
    sends st = (sends st0 ++ new)%list /\
    Forall (fun tu => now st0 <= fst tu) new.

(** The figures of an evaluation agree with each other and with its
    lines, and the set sells for more than the lines cost. *)
Definition consistent (ev : evaluation) : Prop :=
  cost ev < set_price ev /\
  profit ev = set_price ev - cost ev /\
  cost ev = Py.sum (map line_cost (components ev)) /\
  trades ev = Py.sum (map c_qty (components ev)) + 1 /\
  Forall well_formed_line (components ev).

(** ** Worlds used as test scenarios *)

Module Scenario.

Definition find {A} (k : string) (l : list (string * A)) : option A :=
  snd <$> List.find (fun kv => String.eqb k (fst kv)) l.

Definition ok {P} (data : P) : reply P := Response 200 (Some (JData data)).

Definition not_found {P} : reply P := Response 404 None.

(** A service with fixed content that answers every request after
    [lat] milliseconds. *)
Definition static_world (items : list item_summary)
    (details : list (string * item_details))
    (books : list (string * list order)) (lat : Z) : World :=
  {| serve := fun u _ =>
       match u return reply (payload u) with
       | ITEMS_URL => ok items
       | ITEM_URL s => from_option ok not_found (find s details)
       | ORDERS_URL s => from_option ok not_found (find s books)
       end;
     latency := fun _ => lat |}.

(** The service is unreachable: every [session.get] raises at once. *)
Definition unreachable (lat : Z) : World :=
  {| serve := fun u _ => GetRaises ConnectionError;
     latency := fun _ => lat |}.

(** The first [session.get] of the process fails to connect after
    [lat] milliseconds; from then on the service is [w]. *)
Definition first_fails (lat : Z) (w : World) : World :=
  {| serve := fun u n =>
       match n with
       | O => GetRaises ConnectionError
       | S _ => serve w u n
       end;
     latency := fun n => match n with O => lat | S _ => latency w n end |}.

Definition alpha_parts : list string := ["a0"; "a1"; "a2"].

Definition alpha_set : item_summary :=
  mk_summary "a0" "alpha_prime_set" (Some "Alpha Prime Set").

Definition alpha_items : list item_summary :=
  [ alpha_set;
    mk_summary "a1" "alpha_prime_blueprint" (Some "Alpha Blueprint");
    mk_summary "a2" "alpha_prime_barrel" (Some "Alpha Barrel") ].

Definition alpha_root : item_details :=
  mk_details "alpha_prime_set" "Alpha Prime" (Some alpha_parts) (Some true) (Some 1).

Definition alpha_blueprint : item_details :=
  mk_details "alpha_prime_blueprint" "Alpha Blueprint" (Some alpha_parts) (Some false) (Some 2).

Definition alpha_barrel : item_details :=
  mk_details "alpha_prime_barrel" "Alpha Barrel" (Some alpha_parts) None None.

Definition alpha_details : list (string * item_details) :=
  [ ("alpha_prime_set", alpha_root);
    ("alpha_prime_blueprint", alpha_blueprint);
    ("alpha_prime_barrel", alpha_barrel);
    ("forma", mk_details "forma" "Forma" None None None) ].

Definition alpha_books : list (string * list order) :=
  [ ("alpha_prime_set",
     [ mk_order "sell" 320 "ingame"; mk_order "sell" 250 "offline";
       mk_order "buy" 400 "online"; mk_order "sell" 300 "online" ]);
    ("alpha_prime_blueprint",
     [ mk_order "sell" 50 "ingame"; mk_order "sell" 60 "online" ]);
    ("alpha_prime_barrel",
     [ mk_order "sell" 40 "online"; mk_order "buy" 45 "ingame" ]) ].

Definition alpha_world : World :=
  static_world alpha_items alpha_details alpha_books 20.

(** The service answers the item list with status 300 and a JSON
    body. *)
Definition multiple_choices : World :=
  {| serve := fun u n =>
       match u return reply (payload u) with
       | ITEMS_URL => Response 300 (Some (JData alpha_items))
       | u' => serve alpha_world u' n
       end;
     latency := fun _ => 20 |}.

(** Two calls in a row, as a caller without delay of its own makes
    them. *)
Definition get_item_details_twice (w : World) (url_name : string)
  : M (option item_details * option item_details) :=
  let* first := get_item_details w url_name in
  let* second := get_item_details w url_name in
  ret (first, second).

Definition get_orders_twice (w : World) (url_name : string)
  : M (list order * list order) :=
  let* first := get_orders w url_name in
  let* second := get_orders w url_name in
  ret (first, second).

(** The evaluation the spec expects for the end-to-end scenario. *)
Definition alpha_evaluation : evaluation :=
  {| name := "Alpha Prime";
     set_price := 300;
     cost := 140;
     profit := 160;
     trades := 4;
     components :=
       [ mk_component "Alpha Blueprint" "2x 50 = 100" 50 2;
         mk_component "Alpha Barrel" "1x 40 = 40" 40 1 ] |}.

(** The state a computation leaves behind. *)
Definition state_after {A} (m : M A) (st : state) : state :=
  match m st with
  | Ok (_, st') => st'
  | Raise _ => st
  end.

(** The alpha service when the details of the barrel cannot be had. *)
Definition barrel_missing : World :=
  static_world alpha_items
    [ ("alpha_prime_set", alpha_root);
      ("alpha_prime_blueprint", alpha_blueprint) ]
    alpha_books 20.

(** A market with three sets: alpha as above; gamma, whose root sells
    at 100 and whose hilt is needed three times at 50; beta, whose root
    sells at 100 and whose blade costs 30. *)
Definition market_items : list item_summary :=
  alpha_items ++
  [ mk_summary "g0" "gamma_prime_set" (Some "Gamma Prime Set");
    mk_summary "g1" "gamma_prime_hilt" (Some "Gamma Prime Hilt");
    mk_summary "b0" "beta_prime_set" (Some "Beta Prime Set");
    mk_summary "b1" "beta_prime_blade" None ].

Definition market_details : list (string * item_details) :=
  alpha_details ++
  [ ("gamma_prime_set",
     mk_details "gamma_prime_set" "Gamma Prime Set" (Some ["g0"; "g1"]) (Some true) None);
    ("gamma_prime_hilt",
     mk_details "gamma_prime_hilt" "Gamma Prime Hilt" (Some ["g0"; "g1"]) None (Some 3));
    ("beta_prime_set",
     mk_details "beta_prime_set" "Beta Prime Set" (Some ["b1"; "b0"]) (Some true) None);
    ("beta_prime_blade",
     mk_details "beta_prime_blade" "Beta Prime Blade" None (Some false) (Some 0)) ].

Definition market_books : list (string * list order) :=
  alpha_books ++
  [ ("gamma_prime_set", [ mk_order "sell" 100 "ingame" ]);
    ("gamma_prime_hilt", [ mk_order "sell" 50 "online" ]);
    ("beta_prime_set", [ mk_order "sell" 100 "online"; mk_order "sell" 95 "invisible" ]);
    ("beta_prime_blade", [ mk_order "sell" 30 "ingame"; mk_order "sell" 30 "online" ]) ].

Definition market_world : World :=
  static_world market_items market_details market_books 400.

Definition beta_evaluation : evaluation :=
  {| name := "Beta Prime Set";
     set_price := 100;
     cost := 30;
     profit := 70;
     trades := 2;
     components := [ mk_component "Beta Prime Blade" "1x 30 = 30" 30 1 ] |}.

Definition gamma_evaluation : evaluation :=
  {| name := "Gamma Prime Set";
     set_price := 100;
     cost := 150;
     profit := -50;
     trades := 4;
     components := [ mk_component "Gamma Prime Hilt" "3x 50 = 150" 50 3 ] |}.

(** The states of a fresh process after the item list is loaded. *)
Definition alpha_loaded : state :=
  state_after (initialize_items alpha_world) (init_state 100000).

Definition barrel_missing_loaded : state :=
  state_after (initialize_items barrel_missing) (init_state 100000).

(** The state of a fresh process after a scan of the market, with a
    callback. *)
Definition fresh : state := init_state 100000.

Definition market_scanned : state :=
  state_after (run_scan market_world true) fresh.

Definition market_results : list evaluation :=
  [beta_evaluation; alpha_evaluation].

Definition market_delivered : list (list evaluation) :=
  [ [alpha_evaluation]; [beta_evaluation; alpha_evaluation] ].

(** A service whose item list has the two alpha parts only, and the
    state of a process that has loaded it. *)
Definition parts_only : World :=
  static_world
    [ mk_summary "a1" "alpha_prime_blueprint" (Some "Alpha Blueprint");
      mk_summary "a2" "alpha_prime_barrel" (Some "alpha prime set");
      mk_summary "a3" "alpha_prime_stock" None ]
    alpha_details alpha_books 20.

Definition parts_only_loaded : state :=
  state_after (initialize_items parts_only) fresh.

(** A service whose item list has the alpha set but none of its parts,
    and the state of a process that has loaded it. *)
Definition set_only : World :=
  static_world [alpha_set] alpha_details alpha_books 20.

Definition set_only_loaded : state :=
  state_after (initialize_items set_only) fresh.

(** A process that has looked up the details of forma on the market
    before its first scan, and the state after that scan. *)
Definition forma_cached : state :=
  state_after (get_item_details market_world "forma") fresh.

Definition forma_then_scanned : state :=
  state_after (run_scan market_world true) forma_cached.

(** The item list comes back as a JSON object without ['data']. *)
Definition broken_envelope : World :=
  {| serve := fun u n => Response 200 (Some JNoData);
     latency := fun _ => 20 |}.

(** [session.get] is interrupted by something that is no
    [RequestException]. *)
Definition interrupted : World :=
  {| serve := fun u n => GetRaises (OtherException "KeyboardInterrupt");
     latency := fun _ => 20 |}.

(** Every answer is the empty JSON object. *)
Definition empty_documents : World :=
  {| serve := fun u n => Response 200 (Some JFalsy);
     latency := fun _ => 20 |}.

(** The order book of the spec's order-filter example. *)
Definition example_orders : list order :=
  [ mk_order "sell" 120 "online"; mk_order "sell" 90 "offline";
    mk_order "buy" 50 "online"; mk_order "sell" 200 "ingame" ].

End Scenario.

(** * Properties *)

Local Close Scope string_scope.

(** ** Reasoning in the monad *)

Lemma bind_eq {A B} (m : M A) (k : A -> M B) st a st1 :
  m st = Ok (a, st1) -> bind m k st = k a st1.
Proof. unfold bind. by intros ->. Qed.


(** ** Sorting *)

Section Sorting.
Context {A : Type} (key : A -> Z).
Local Abbreviation key_le := (key_le key).

Lemma insert_by_perm x l : Py.insert_by key x l ≡ₚ x :: l.
Proof.
  induction l as [|y l IH]; simpl; [done|].
  destruct (key x <=? key y); [done|].
  rewrite IH. apply perm_swap.
Qed.

Lemma sort_by_perm l : Py.sort_by key l ≡ₚ l.
Proof.
  induction l as [|x l IH]; simpl; [done|].
  fold (Py.sort_by key l). by rewrite insert_by_perm, IH.
Qed.

Lemma sort_by_length l : length (Py.sort_by key l) = length l.
Proof. apply Permutation_length, sort_by_perm. Qed.

Lemma insert_by_sorted x l :
  StronglySorted key_le l -> StronglySorted key_le (Py.insert_by key x l).
Proof.
  induction 1 as [|y l Hl IH Hy]; simpl.
  - repeat constructor.
  - destruct (Z.leb_spec (key x) (key y)) as [Hxy|Hxy].
    + constructor; [by constructor|].
      constructor; [done|].
      eapply Forall_impl; [exact Hy|]. unfold key_le. intros; simpl in *; lia.
    + constructor; [done|].
      rewrite insert_by_perm. constructor; [|done]. unfold key_le. lia.
Qed.

Lemma sort_by_sorted l : StronglySorted key_le (Py.sort_by key l).
Proof.
  induction l as [|x l IH]; simpl; [constructor|].
  by apply insert_by_sorted.
Qed.

(** The first element of a sorted list has the least key of the list
    that was sorted. *)
Lemma sort_by_head l first rest :
  Py.sort_by key l = first :: rest ->
  In first l /\ forall a, In a l -> key first <= key a.
Proof.
  intros Hs.
  pose proof (sort_by_perm l) as Hp.
  pose proof (sort_by_sorted l) as Hsorted.
  rewrite Hs in Hp, Hsorted.
  split.
  - eapply Permutation_in; [exact Hp|]. by left.
  - intros a Ha.
    eapply Permutation_in in Ha; [|symmetry; exact Hp].
    destruct Ha as [->|Ha]; [lia|].
    apply StronglySorted_inv in Hsorted as [_ Hall].
    rewrite List.Forall_forall in Hall. by apply Hall.
Qed.

End Sorting.

(** ** Lowest valid sell price *)

Lemma valid_order_spec o : valid_order o = true <-> is_valid_sell o.
Proof.
  unfold valid_order, is_valid_sell.
  rewrite andb_true_iff, orb_true_iff, !String.eqb_eq. tauto.
Qed.

Lemma lowest_is_Inf orders :
  get_lowest_sell_price orders = Inf <->
  forall o, In o orders -> ~ is_valid_sell o.
Proof.
  unfold get_lowest_sell_price.
  destruct (List.filter valid_order orders) as [|v vs] eqn:Hf.
  - split; [|done]. intros _ o Ho Hv.
    assert (In o (List.filter valid_order orders)) as Hin
      by (apply filter_In; split; [done|by apply valid_order_spec]).
    by rewrite Hf in Hin.
  - destruct (Py.sort_by platinum (v :: vs)) as [|first rest] eqn:Hs.
    + pose proof (sort_by_length platinum (v :: vs)) as Hl.
      by rewrite Hs in Hl.
    + split; [done|]. intros Hno. exfalso.
      apply (Hno v).
      * eapply proj1, filter_In. rewrite Hf. by left.
      * apply valid_order_spec. eapply proj2, filter_In. rewrite Hf. by left.
Qed.

Lemma lowest_is_Platinum orders m :
  get_lowest_sell_price orders = Platinum m <->
  (exists o, In o orders /\ is_valid_sell o /\ platinum o = m) /\
  (forall o, In o orders -> is_valid_sell o -> m <= platinum o).
Proof.
  unfold get_lowest_sell_price.
  destruct (List.filter valid_order orders) as [|v vs] eqn:Hf.
  - split; [done|]. intros [(o & Ho & Hv & _) _]. exfalso.
    assert (In o (List.filter valid_order orders)) as Hin
      by (apply filter_In; split; [done|by apply valid_order_spec]).
    by rewrite Hf in Hin.
  - destruct (Py.sort_by platinum (v :: vs)) as [|first rest] eqn:Hs.
    + pose proof (sort_by_length platinum (v :: vs)) as Hl.
      by rewrite Hs in Hl.
    + apply sort_by_head in Hs as [Hin Hmin]. rewrite <- Hf in Hin, Hmin.
      apply filter_In in Hin as [Hin Hv%valid_order_spec].
      assert (forall o, In o orders -> is_valid_sell o -> platinum first <= platinum o)
        as Hmin'.
      { intros o Ho Hvo. apply Hmin, filter_In. split; [done|].
        by apply valid_order_spec. }
      split.
      * intros [= <-]. split; [|done]. by exists first.
      * intros [(o & Ho & Hvo & <-) Hle]. f_equal.
        specialize (Hmin' o Ho Hvo). specialize (Hle first Hin Hv). lia.
Qed.

(** C2: [get_lowest_sell_price] looks only at sell orders of online or
    ingame sellers; it returns [float('inf')], which is above every
    integer price, exactly when there is no such order, and otherwise the
    least price among them; on the order book of the spec's example it
    returns 120. *)
Theorem get_lowest_sell_price_correct :
  (forall orders,
     get_lowest_sell_price orders = Inf <->
     forall o, In o orders -> ~ is_valid_sell o) /\
  (forall orders m,
     get_lowest_sell_price orders = Platinum m <->
     (exists o, In o orders /\ is_valid_sell o /\ platinum o = m) /\
     (forall o, In o orders -> is_valid_sell o -> m <= platinum o)) /\
  (forall p, price_ltb (Platinum p) Inf = true /\ price_ltb Inf (Platinum p) = false) /\
  get_lowest_sell_price Scenario.example_orders = Platinum 120.
Proof.
  split; [exact lowest_is_Inf|].
  split; [exact lowest_is_Platinum|].
  split; [by intros p|].
  reflexivity.
Qed.

(** ** The client *)

Section Client.
Context (w : World).
Local Abbreviation after_send := (after_send w).

Lemma _get_cases u st :
  _get w u st =
  match serve w u (length (sends st)) with
  | GetRaises e => except_RequestException e (after_send u st)
  | Response status_code body =>
      let st' := set_last_request_time (now (after_send u st)) (after_send u st) in
      match raise_for_status status_code with
      | Some e => except_RequestException e st'
      | None =>
          match body with
          | None => except_RequestException JSONDecodeError st'
          | Some data => Ok (Some data, st')
          end
      end
  end.
Proof.
  unfold _get, after_send, send_time, advance, log_send.
  destruct (now st - last_request_time st <? REQUEST_DELAY); simpl;
    [|reflexivity].
  replace (now st + (REQUEST_DELAY - (now st - last_request_time st)))
    with (last_request_time st + REQUEST_DELAY) by lia.
  reflexivity.
Qed.

(** A failed transport makes [_get] return [None]; only the clock, the
    send log and possibly the timestamp change. *)
Lemma _get_transport_failure u st :
  transport_failure (serve w u (length (sends st))) ->
  exists st',
    _get w u st = Ok (None, st') /\
    item_cache st' = item_cache st /\
    all_items_map st' = all_items_map st /\
    all_items_data st' = all_items_data st /\
    sends st' = sends st ++ [(send_time st, u)].
Proof.
  intros Hfail. rewrite _get_cases.
  destruct (serve w u (length (sends st))) as [e|status_code body]; simpl in *.
  - unfold except_RequestException. rewrite Hfail. by eexists.
  - unfold raise_for_status.
    destruct ((400 <=? status_code) && (status_code <? 600)) eqn:Hs; simpl.
    + by eexists.
    + destruct Hfail as [Hr| ->]; [lia|]. by eexists.
Qed.

Lemma get_all_items_transport_failure st :
  transport_failure (serve w ITEMS_URL (length (sends st))) ->
  exists st', get_all_items w st = Ok ([], st').
Proof.
  intros Hfail. apply _get_transport_failure in Hfail as (st' & Hget & _).
  exists st'. unfold get_all_items. by rewrite (bind_eq _ _ _ _ _ Hget).
Qed.

Lemma get_orders_transport_failure url_name st :
  transport_failure (serve w (ORDERS_URL url_name) (length (sends st))) ->
  exists st', get_orders w url_name st = Ok ([], st').
Proof.
  intros Hfail. apply _get_transport_failure in Hfail as (st' & Hget & _).
  exists st'. unfold get_orders. by rewrite (bind_eq _ _ _ _ _ Hget).
Qed.

Lemma get_item_details_hit url_name cached st :
  item_cache st !! url_name = Some cached ->
  get_item_details w url_name st = Ok (Some cached, st).
Proof.
  intros Hc. unfold get_item_details, bind, gets. cbv beta. by rewrite Hc.
Qed.

Lemma get_item_details_miss url_name st :
  item_cache st !! url_name = None ->
  get_item_details w url_name st =
  (let* data :=
     (_get w (ITEM_URL url_name) : M (option (json item_details))) in
   if truthy data then
     let* item_data := subscript_data data in
     modify (fun st => set_item_cache (<[url_name := item_data]> (item_cache st)) st) >>
     ret (Some item_data)
   else ret None) st.
Proof.
  intros Hc. unfold get_item_details, bind at 1, gets. cbv beta. by rewrite Hc.
Qed.

Lemma get_item_details_transport_failure url_name st :
  item_cache st !! url_name = None ->
  transport_failure (serve w (ITEM_URL url_name) (length (sends st))) ->
  exists st',
    get_item_details w url_name st = Ok (None, st') /\
    item_cache st' = item_cache st.
Proof.
  intros Hc Hfail.
  apply _get_transport_failure in Hfail as (st' & Hget & Hcache & _).
  exists st'. rewrite get_item_details_miss by done.
  by rewrite (bind_eq _ _ _ _ _ Hget).
Qed.

(** Every request leaves at least [REQUEST_DELAY] after the recorded
    time of the last one. *)
Lemma send_time_ge st : last_request_time st + REQUEST_DELAY <= send_time st.
Proof.
  unfold send_time.
  destruct (Z.ltb_spec (now st - last_request_time st) REQUEST_DELAY); lia.
Qed.

Lemma _get_sends u st r st' :
  _get w u st = Ok (r, st') ->
  sends st' = sends st ++ [(send_time st, u)].
Proof.
  rewrite _get_cases. unfold except_RequestException.
  destruct (serve w u (length (sends st))) as [e|status_code body]; simpl.
  - destruct (is_RequestException e); [|done]. by intros [= _ <-].
  - destruct (raise_for_status status_code) as [e|].
    + destruct (is_RequestException e); [|done]. by intros [= _ <-].
    + destruct body; by intros [= _ <-].
Qed.

(** When [session.get] returns a response, the recorded time is the time
    the response arrived. *)
Lemma _get_response_time u st status_code body r st' :
  serve w u (length (sends st)) = Response status_code body ->
  _get w u st = Ok (r, st') ->
  last_request_time st' = send_time st + latency w (length (sends st)).
Proof.
  intros Hs. rewrite _get_cases, Hs. unfold except_RequestException. simpl.
  destruct (raise_for_status status_code) as [e|].
  - destruct (is_RequestException e); [|done]. by intros [= _ <-].
  - destruct body; by intros [= _ <-].
Qed.

(** When [session.get] raises, the recorded time stays what it was. *)
Lemma _get_raises_time u st e r st' :
  serve w u (length (sends st)) = GetRaises e ->
  _get w u st = Ok (r, st') ->
  last_request_time st' = last_request_time st.
Proof.
  intros Hs. rewrite _get_cases, Hs. unfold except_RequestException.
  destruct (is_RequestException e); [|done]. by intros [= _ <-].
Qed.

Lemma spaced_snoc times t :
  spaced times ->
  (forall t0, last times = Some t0 -> REQUEST_DELAY <= t - t0) ->
  spaced (times ++ [t]).
Proof.
  induction times as [|t1 [|t2 times] IH]; intros Hsp Hlast.
  - done.
  - simpl. split; [|done]. by apply Hlast.
  - destruct Hsp as [H12 Hsp]. split; [done|].
    apply IH; [done|]. intros t0 Ht0. apply Hlast.
    by rewrite last_cons_cons.
Qed.

(** The rate limit survives every request that comes back with a
    response, whatever its status or body. *)
Lemma _get_rate_limited u st status_code body r st' :
  0 <= latency w (length (sends st)) ->
  serve w u (length (sends st)) = Response status_code body ->
  rate_limited st ->
  _get w u st = Ok (r, st') ->
  rate_limited st'.
Proof.
  intros Hlat Hs [Hsp Hlast] Hget.
  pose proof (_get_sends _ _ _ _ Hget) as Hsends.
  pose proof (_get_response_time _ _ _ _ _ _ Hs Hget) as Htime.
  pose proof (send_time_ge st) as Hge.
  unfold rate_limited. rewrite Hsends, map_app. simpl. split.
  - apply spaced_snoc; [done|]. intros t0 Ht0%Hlast. lia.
  - rewrite last_snoc. intros t0 [= <-]. lia.
Qed.

Lemma _get_responsive u st r st' :
  responsive w -> rate_limited st ->
  _get w u st = Ok (r, st') -> rate_limited st'.
Proof.
  intros Hw Hst Hget.
  destruct (Hw u (length (sends st))) as [(status_code & body & Hs) Hlat].
  by eapply _get_rate_limited.
Qed.

(** On a service that always responds, the three operations keep the
    requests spaced. *)
Lemma get_all_items_rate_limited st items st' :
  responsive w -> rate_limited st ->
  get_all_items w st = Ok (items, st') -> rate_limited st'.
Proof.
  intros Hw Hst. unfold get_all_items, bind.
  destruct (_get w ITEMS_URL st) as [[data st1]|e] eqn:Hget; [|done].
  pose proof (_get_responsive _ _ _ _ Hw Hst Hget) as Hst1.
  destruct data as [[| |]|]; simpl; try done; by intros [= _ <-].
Qed.

Lemma get_orders_rate_limited url_name st orders st' :
  responsive w -> rate_limited st ->
  get_orders w url_name st = Ok (orders, st') -> rate_limited st'.
Proof.
  intros Hw Hst. unfold get_orders, bind.
  destruct (_get w (ORDERS_URL url_name) st) as [[data st1]|e] eqn:Hget; [|done].
  pose proof (_get_responsive _ _ _ _ Hw Hst Hget) as Hst1.
  destruct data as [[| |]|]; simpl; try done; by intros [= _ <-].
Qed.

Lemma get_item_details_rate_limited url_name st details st' :
  responsive w -> rate_limited st ->
  get_item_details w url_name st = Ok (details, st') -> rate_limited st'.
Proof.
  intros Hw Hst.
  destruct (item_cache st !! url_name) as [cached|] eqn:Hc.
  - rewrite (get_item_details_hit _ _ _ Hc). by intros [= _ <-].
  - rewrite get_item_details_miss by done. unfold bind at 1.
    destruct (_get w (ITEM_URL url_name) st) as [[data st1]|e] eqn:Hget; [|done].
    pose proof (_get_responsive _ _ _ _ Hw Hst Hget) as Hst1.
    destruct data as [[| |]|]; simpl; try done; by intros [= _ <-].
Qed.

(** Under normal operation [_get] returns, and never a document that
    lacks the ['data'] entry. *)
Lemma _get_total u st :
  normal_operation w ->
  exists r st', _get w u st = Ok (r, st') /\ r <> Some JNoData.
Proof.
  intros Hw. specialize (Hw u (length (sends st))).
  rewrite _get_cases. unfold except_RequestException, raise_for_status.
  destruct (serve w u (length (sends st))) as [e|status_code body];
    simpl in *.
  - rewrite Hw. by eexists _, _.
  - destruct ((400 <=? status_code) && (status_code <? 600)) eqn:Hs; simpl.
    + by eexists _, _.
    + destruct body as [[| |]|]; try done; by eexists _, _.
Qed.

Lemma get_all_items_total st :
  normal_operation w -> exists items st', get_all_items w st = Ok (items, st').
Proof.
  intros Hw. destruct (_get_total ITEMS_URL st Hw) as (r & st' & Hget & Hr).
  unfold get_all_items. rewrite (bind_eq _ _ _ _ _ Hget).
  destruct r as [[| |]|]; try done; by eexists _, _.
Qed.

Lemma get_orders_total url_name st :
  normal_operation w ->
  exists orders st', get_orders w url_name st = Ok (orders, st').
Proof.
  intros Hw.
  destruct (_get_total (ORDERS_URL url_name) st Hw) as (r & st' & Hget & Hr).
  unfold get_orders. rewrite (bind_eq _ _ _ _ _ Hget).
  destruct r as [[| |]|]; try done; by eexists _, _.
Qed.

Lemma get_item_details_total url_name st :
  normal_operation w ->
  exists r st', get_item_details w url_name st = Ok (r, st').
Proof.
  intros Hw. destruct (item_cache st !! url_name) as [cached|] eqn:Hc.
  - rewrite (get_item_details_hit _ _ _ Hc). by eexists _, _.
  - rewrite get_item_details_miss by done.
    destruct (_get_total (ITEM_URL url_name) st Hw) as (r & st' & Hget & Hr).
    rewrite (bind_eq _ _ _ _ _ Hget).
    destruct r as [[| |]|]; try done; by eexists _, _.
Qed.

(** C8, as it holds on the code.  When the slug is not cached and its fetch
    succeeds (a response outside the error classes with the payload under
    ['data']), the first call sends one request and stores the payload
    under the slug, whatever fields it has; the second call returns the
    same payload and leaves the whole state, send log included, as it
    was. *)
Theorem get_item_details_fetch_once url_name st status_code item_data :
  item_cache st !! url_name = None ->
  serve w (ITEM_URL url_name) (length (sends st))
    = Response status_code (Some (JData item_data)) ->
  ~ (400 <= status_code < 600) ->
  exists st1,
    get_item_details w url_name st = Ok (Some item_data, st1) /\
    length (sends st1) = S (length (sends st)) /\
    item_cache st1 !! url_name = Some item_data /\
    get_item_details w url_name st1 = Ok (Some item_data, st1).
Proof.
  intros Hmiss Hserve Hstatus.
  rewrite get_item_details_miss by done.
  unfold bind at 1. rewrite _get_cases, Hserve. unfold raise_for_status.
  destruct ((400 <=? status_code) && (status_code <? 600)) eqn:Hs; [lia|].
  cbn -[insert lookup]. eexists. split; [reflexivity|].
  split; [|split].
  - cbn -[insert lookup]. rewrite length_app. simpl. lia.
  - cbn -[insert lookup]. apply lookup_insert_eq.
  - apply get_item_details_hit. cbn -[insert lookup]. apply lookup_insert_eq.
Qed.

End Client.

Lemma get_item_details_fetch_once_witness :
  exists st1,
    get_item_details Scenario.alpha_world "forma" (init_state 100000)
      = Ok (Some (mk_details "forma" "Forma" None None None), st1) /\
    length (sends st1) = 1%nat /\
    item_cache st1 !! "forma"%string = Some (mk_details "forma" "Forma" None None None) /\
    get_item_details Scenario.alpha_world "forma" st1
      = Ok (Some (mk_details "forma" "Forma" None None None), st1).
Proof.
  apply (get_item_details_fetch_once Scenario.alpha_world "forma"
           (init_state 100000) 200).
  - reflexivity.
  - reflexivity.
  - lia.
Defined.

(** C8 as stated fails when the first fetch fails: nothing is cached, the
    second call sends a request of its own, and the two results differ. *)
Lemma get_item_details_twice_two_requests :
  exists st',
    Scenario.get_item_details_twice
      (Scenario.first_fails 5 Scenario.alpha_world) "alpha_prime_set"
      (init_state 100000)
    = Ok ((None, Some Scenario.alpha_root), st') /\
    length (sends st') = 2%nat /\
    None <> Some Scenario.alpha_root.
Proof. eexists. split; [vm_compute; reflexivity|]. by split. Qed.

(** C3 fails on the code: when [session.get] raises, the timestamp is not
    updated, and the next request leaves without waiting.  Two calls of
    [get_orders], the first failing to connect after 5 ms, send at
    100000 and 100005. *)
Theorem rate_limit_lost_after_failed_get :
  exists second st',
    Scenario.get_orders_twice
      (Scenario.first_fails 5 Scenario.alpha_world) "alpha_prime_set"
      (init_state 100000)
    = Ok (([], second), st') /\
    map fst (sends st') = [100000; 100005] /\
    ~ spaced (map fst (sends st')).
Proof.
  eexists _, _. split; [vm_compute; reflexivity|].
  split; [reflexivity|]. simpl. unfold REQUEST_DELAY. lia.
Qed.

(** C5 as stated fails for a status outside 2xx that is not an error
    class: [raise_for_status] lets it pass and the body is used. *)
Lemma get_all_items_status_300 :
  exists st',
    serve Scenario.multiple_choices ITEMS_URL 0
      = Response 300 (Some (JData Scenario.alpha_items)) /\
    ~ (200 <= 300 < 300) /\
    get_all_items Scenario.multiple_choices (init_state 100000)
      = Ok (Scenario.alpha_items, st') /\
    Scenario.alpha_items <> [].
Proof.
  eexists. split; [reflexivity|]. split; [lia|].
  split; [vm_compute; reflexivity|]. done.
Qed.

(** ** The engine: parts and root *)

Section Parts.
Context (w : World).

Lemma parts_loop_cons pid parts_ids components set_root_item st :
  parts_loop w (pid :: parts_ids) components set_root_item st =
  match all_items_map st !! pid with
  | None => parts_loop w parts_ids components set_root_item st
  | Some p_slug =>
      match get_item_details w p_slug st with
      | Ok (None, st1) => parts_loop w parts_ids components set_root_item st1
      | Ok (Some p_details, st1) =>
          if is_set_root p_details
          then parts_loop w parts_ids components (Some p_details) st1
          else parts_loop w parts_ids (components ++ [p_details]) set_root_item st1
      | Raise e => Raise e
      end
  end.
Proof.
  simpl. unfold bind at 1, gets. cbv beta.
  destruct (all_items_map st !! pid) as [p_slug|]; [|done].
  unfold bind.
  destruct (get_item_details w p_slug st) as [[[p|] st1]|e]; try done.
  by destruct (is_set_root p).
Qed.

Lemma fetched_parts_cons pid parts_ids st :
  fetched_parts w (pid :: parts_ids) st =
  match all_items_map st !! pid with
  | None => fetched_parts w parts_ids st
  | Some p_slug =>
      match get_item_details w p_slug st with
      | Ok (p_details, st1) =>
          match fetched_parts w parts_ids st1 with
          | Ok (rest, st2) =>
              Ok (match p_details with
                  | Some p => p :: rest
                  | None => rest
                  end, st2)
          | Raise e => Raise e
          end
      | Raise e => Raise e
      end
  end.
Proof.
  simpl. unfold bind at 1, gets. cbv beta.
  destruct (all_items_map st !! pid) as [p_slug|]; [|done].
  unfold bind.
  destruct (get_item_details w p_slug st) as [[p st1]|e]; [|done].
  by destruct (fetched_parts w parts_ids st1) as [[rest st2]|e].
Qed.

Lemma flagged_root_cons_root set_root_item p fetched :
  is_set_root p = true ->
  flagged_root set_root_item (p :: fetched) = flagged_root (Some p) fetched.
Proof.
  intros Hp. unfold flagged_root. simpl. rewrite Hp.
  destruct (List.filter is_set_root fetched) as [|q l] eqn:Hf; [done|].
  rewrite last_cons_cons.
  destruct (last (q :: l)) eqn:Hl; [done|]. by apply last_None in Hl.
Qed.

Lemma flagged_root_cons_component set_root_item p fetched :
  is_set_root p = false ->
  flagged_root set_root_item (p :: fetched) = flagged_root set_root_item fetched.
Proof. intros Hp. unfold flagged_root. simpl. by rewrite Hp. Qed.

(** The parts loop sorts the fetched parts into the components, in
    order, and the root, the last part that carries the flag. *)
Lemma parts_loop_spec parts_ids components set_root_item st :
  parts_loop w parts_ids components set_root_item st =
  match fetched_parts w parts_ids st with
  | Ok (fetched, st') =>
      Ok ((components ++ unflagged fetched,
           flagged_root set_root_item fetched), st')
  | Raise e => Raise e
  end.
Proof.
  revert components set_root_item st.
  induction parts_ids as [|pid parts_ids IH]; intros components root st.
  - simpl. unfold ret, unflagged. simpl. by rewrite app_nil_r.
  - rewrite parts_loop_cons, fetched_parts_cons.
    destruct (all_items_map st !! pid) as [p_slug|]; [|apply IH].
    destruct (get_item_details w p_slug st) as [[[p|] st1]|e]; [| |done].
    + destruct (is_set_root p) eqn:Hp; rewrite IH;
        destruct (fetched_parts w parts_ids st1) as [[rest st2]|e]; try done.
      * rewrite flagged_root_cons_root by done.
        unfold unflagged. simpl. by rewrite Hp.
      * rewrite flagged_root_cons_component by done.
        unfold unflagged. simpl. rewrite Hp. simpl.
        by rewrite <- app_assoc.
    + rewrite IH. by destruct (fetched_parts w parts_ids st1) as [[rest st2]|e].
Qed.


Lemma calculate_set_profit_spec set_item_summary st :
  calculate_set_profit w set_item_summary st =
  match get_item_details w (sm_slug set_item_summary) st with
  | Ok (Some set_details, st1) =>
      match setParts set_details with
      | Some parts_ids =>
          match fetched_parts w parts_ids st1 with
          | Ok (fetched, st2) =>
              match resolve_root set_details (flagged_root None fetched) with
              | Some set_root_item =>
                  price_set w set_root_item (unflagged fetched) st2
              | None => Ok (None, st2)
              end
          | Raise e => Raise e
          end
      | None => Ok (None, st1)
      end
  | Ok (None, st1) => Ok (None, st1)
  | Raise e => Raise e
  end.
Proof.
  unfold calculate_set_profit. unfold bind at 1.
  destruct (get_item_details w (sm_slug set_item_summary) st)
    as [[[set_details|] st1]|e]; try done.
  destruct (setParts set_details) as [parts_ids|]; [|done].
  unfold bind at 1. rewrite parts_loop_spec.
  destruct (fetched_parts w parts_ids st1) as [[fetched st2]|e]; [|done].
  simpl. by destruct (resolve_root set_details (flagged_root None fetched)).
Qed.

(** C7: with the candidate's details and its fetched parts at hand, the
    root is the (last) part that carries the root flag; if no part
    carries it, the candidate itself, provided it carries the flag; and
    if it does not, the candidate is given up. *)
Theorem root_resolution
    set_item_summary st set_details st1 parts_ids fetched st2 :
  get_item_details w (sm_slug set_item_summary) st = Ok (Some set_details, st1) ->
  setParts set_details = Some parts_ids ->
  fetched_parts w parts_ids st1 = Ok (fetched, st2) ->
  (forall root,
     last (List.filter is_set_root fetched) = Some root ->
     calculate_set_profit w set_item_summary st
       = price_set w root (unflagged fetched) st2) /\
  (List.filter is_set_root fetched = [] ->
   is_set_root set_details = true ->
   calculate_set_profit w set_item_summary st
     = price_set w set_details (unflagged fetched) st2) /\
  (List.filter is_set_root fetched = [] ->
   is_set_root set_details = false ->
   calculate_set_profit w set_item_summary st = Ok (None, st2)).
Proof.
  intros Hdetails Hparts Hfetched.
  rewrite calculate_set_profit_spec, Hdetails, Hparts, Hfetched.
  unfold resolve_root, flagged_root.
  split; [|split].
  - by intros root ->.
  - by intros -> ->.
  - by intros -> ->.
Qed.

End Parts.


(** In that scenario the candidate is still evaluated, from the
    blueprint alone. *)
Lemma missing_part_still_evaluated :
  exists st',
    calculate_set_profit Scenario.barrel_missing Scenario.alpha_set
      Scenario.barrel_missing_loaded
    = Ok (Some {| name := "Alpha Prime";
                  set_price := 300;
                  cost := 100;
                  profit := 200;
                  trades := 3;
                  components := [ mk_component "Alpha Blueprint" "2x 50 = 100" 50 2 ] |},
          st').
Proof. eexists. vm_compute. reflexivity. Qed.

Lemma root_resolution_witness :
  let w := Scenario.alpha_world in
  let st := Scenario.alpha_loaded in
  let st1 := Scenario.state_after (get_item_details w "alpha_prime_set") st in
  let st2 := Scenario.state_after (fetched_parts w Scenario.alpha_parts) st1 in
  let fetched :=
    [Scenario.alpha_root; Scenario.alpha_blueprint; Scenario.alpha_barrel] in
  (forall root,
     last (List.filter is_set_root fetched) = Some root ->
     calculate_set_profit w Scenario.alpha_set st
       = price_set w root (unflagged fetched) st2) /\
  (List.filter is_set_root fetched = [] ->
   is_set_root Scenario.alpha_root = true ->
   calculate_set_profit w Scenario.alpha_set st
     = price_set w Scenario.alpha_root (unflagged fetched) st2) /\
  (List.filter is_set_root fetched = [] ->
   is_set_root Scenario.alpha_root = false ->
   calculate_set_profit w Scenario.alpha_set st = Ok (None, st2)).
Proof.
  intros w st st1 st2 fetched.
  apply (root_resolution w Scenario.alpha_set st Scenario.alpha_root st1
           Scenario.alpha_parts fetched st2).
  - vm_compute. reflexivity.
  - reflexivity.
  - vm_compute. reflexivity.
Defined.

(** ** The engine: prices *)

Lemma sum_cons x l : Py.sum (x :: l) = x + Py.sum l.
Proof.
  unfold Py.sum. simpl.
  assert (forall l a b, fold_left Z.add l (a + b) = a + fold_left Z.add l b) as H.
  { clear. induction l as [|y l IH]; intros a b; simpl; [done|].
    by rewrite <- Z.add_assoc, IH. }
  by rewrite <- (H l x 0), Z.add_0_r, Z.add_0_l.
Qed.

Section Prices.
Context (w : World).

Lemma components_loop_cons comp components total_cost component_data st :
  components_loop w (comp :: components) total_cost component_data st =
  match get_orders w (d_slug comp) st with
  | Ok (orders, st1) =>
      match get_lowest_sell_price orders with
      | Inf => Ok (None, st1)
      | Platinum price =>
          components_loop w components
            (total_cost + price * quantity_of comp)
            (component_data ++
             [ {| c_name := d_name comp;
                  c_price :=
                    Py.str (quantity_of comp) +:+ "x " +:+ Py.str price
                      +:+ " = " +:+ Py.str (price * quantity_of comp);
                  unit_price := price;
                  c_qty := quantity_of comp |} ]) st1
      end
  | Raise e => Raise e
  end.
Proof.
  simpl. unfold bind.
  destruct (get_orders w (d_slug comp) st) as [[orders st1]|e]; [|done].
  by destruct (get_lowest_sell_price orders).
Qed.

(** What a completed pricing loop has done: one line per component, in
    order, each with the component's name and quantity and the lowest
    valid sell price of its order book. *)
Lemma components_loop_Some components total_cost component_data st
    total_cost' component_data' st' :
  components_loop w components total_cost component_data st
    = Ok (Some (total_cost', component_data'), st') ->
  exists lines,
    component_data' = component_data ++ lines /\
    map c_name lines = map d_name components /\
    map c_qty lines = map quantity_of components /\
    books_priced w (map d_slug components) (map unit_price lines) st st' /\
    total_cost' = total_cost + Py.sum (map line_cost lines).
Proof.
  revert total_cost component_data st.
  induction components as [|comp components IH];
    intros total_cost component_data st Hloop.
  - injection Hloop as <- <- <-. exists []. rewrite app_nil_r.
    repeat split; try done. unfold Py.sum. simpl. lia.
  - rewrite components_loop_cons in Hloop.
    destruct (get_orders w (d_slug comp) st) as [[orders st1]|e] eqn:Ho;
      [|done].
    destruct (get_lowest_sell_price orders) as [price|] eqn:Hp; [|done].
    apply IH in Hloop as (lines & -> & Hnames & Hqty & Hbooks & ->).
    apply lowest_is_Platinum in Hp as [Hex Hmin].
    eexists (_ :: lines). rewrite <- app_assoc. split; [reflexivity|].
    simpl. rewrite Hnames, Hqty, sum_cons. unfold line_cost. simpl.
    split; [done|]. split; [done|]. split; [|lia].
    by exists orders, st1.
Qed.

(** The pricing loop gives up at the first component whose order book
    has no valid sell order. *)
Lemma components_loop_unpriced before comp after lines total_cost
    component_data st st1 orders st2 :
  books_priced w (map d_slug before) lines st st1 ->
  get_orders w (d_slug comp) st1 = Ok (orders, st2) ->
  (forall o, In o orders -> ~ is_valid_sell o) ->
  components_loop w (before ++ comp :: after) total_cost component_data st
    = Ok (None, st2).
Proof.
  revert lines total_cost component_data st.
  induction before as [|c before IH];
    intros lines total_cost component_data st Hbooks Horders Hnone.
  - destruct lines; [|done]. simpl in Hbooks. subst st1.
    rewrite app_nil_l, components_loop_cons, Horders.
    apply lowest_is_Inf in Hnone. by rewrite Hnone.
  - destruct lines as [|p lines]; [done|].
    destruct Hbooks as (orders' & st' & Ho & Hex & Hmin & Hbooks).
    rewrite <- app_comm_cons, components_loop_cons, Ho.
    assert (get_lowest_sell_price orders' = Platinum p) as ->
      by (by apply lowest_is_Platinum).
    by eapply IH.
Qed.

Lemma price_set_spec set_root_item components st :
  price_set w set_root_item components st =
  match get_orders w (d_slug set_root_item) st with
  | Ok (set_orders, st1) =>
      match get_lowest_sell_price set_orders with
      | Inf => Ok (None, st1)
      | Platinum set_price =>
          match components_loop w components 0 [] st1 with
          | Ok (Some (total_cost, component_data), st2) =>
              Ok (Some {| name := d_name set_root_item;
                          set_price := set_price;
                          cost := total_cost;
                          profit := set_price - total_cost;
                          trades := Py.sum (map c_qty component_data) + 1;
                          components := component_data |}, st2)
          | Ok (None, st2) => Ok (None, st2)
          | Raise e => Raise e
          end
      end
  | Raise e => Raise e
  end.
Proof.
  unfold price_set, bind.
  destruct (get_orders w (d_slug set_root_item) st) as [[orders st1]|e];
    [|done].
  destruct (get_lowest_sell_price orders) as [set_price|]; [|done].
  by destruct (components_loop w components 0 [] st1)
    as [[[[total_cost component_data]|] st2]|e].
Qed.

(** An evaluation comes with a priced order book for the root and for
    every component, and its figures are computed from those prices. *)
Lemma price_set_Some set_root_item comps st ev st' :
  price_set w set_root_item comps st = Ok (Some ev, st') ->
  name ev = d_name set_root_item /\
  books_priced w (d_slug set_root_item :: map d_slug comps)
    (set_price ev :: map unit_price (components ev)) st st' /\
  map c_name (components ev) = map d_name comps /\
  map c_qty (components ev) = map quantity_of comps /\
  cost ev = Py.sum (map line_cost (components ev)) /\
  profit ev = set_price ev - cost ev /\
  trades ev = Py.sum (map c_qty (components ev)) + 1.
Proof.
  rewrite price_set_spec.
  destruct (get_orders w (d_slug set_root_item) st) as [[orders st1]|e] eqn:Ho;
    [|done].
  destruct (get_lowest_sell_price orders) as [p|] eqn:Hp; [|done].
  destruct (components_loop w comps 0 [] st1)
    as [[[[total_cost component_data]|] st2]|e] eqn:Hloop; try done.
  intros [= <- <-]. simpl.
  apply components_loop_Some in Hloop
    as (lines & -> & Hnames & Hqty & Hbooks & ->).
  apply lowest_is_Platinum in Hp as [Hex Hmin].
  rewrite app_nil_l. split; [done|]. split; [by exists orders, st1|].
  repeat split; done.
Qed.

End Prices.

(** ** The engine: one candidate *)

Lemma calculate_set_profit_Some w set_item_summary st ev st' :
  calculate_set_profit w set_item_summary st = Ok (Some ev, st') ->
  exists root components st2,
    resolves w set_item_summary st root components st2 /\
    price_set w root components st2 = Ok (Some ev, st').
Proof.
  rewrite calculate_set_profit_spec.
  destruct (get_item_details w (sm_slug set_item_summary) st)
    as [[[set_details|] st1]|e] eqn:Hd; try done.
  destruct (setParts set_details) as [parts_ids|] eqn:Hp; [|done].
  destruct (fetched_parts w parts_ids st1) as [[fetched st2]|e] eqn:Hf; [|done].
  destruct (resolve_root set_details (flagged_root None fetched))
    as [root|] eqn:Hr; [|done].
  intros Hprice. exists root, (unflagged fetched), st2. split; [|done].
  by exists set_details, st1, parts_ids, fetched.
Qed.

Lemma calculate_set_profit_resolved w set_item_summary st root components st2 :
  resolves w set_item_summary st root components st2 ->
  calculate_set_profit w set_item_summary st = price_set w root components st2.
Proof.
  intros (set_details & st1 & parts_ids & fetched & Hd & Hp & Hf & Hr & ->).
  by rewrite calculate_set_profit_spec, Hd, Hp, Hf, Hr.
Qed.

(** C1, as it holds on the code.  The components of a candidate are its
    declared parts that are found in the id index, whose details are
    fetched and that do not carry the root flag.  An evaluation is
    returned only after the order book of the root and of every component
    has been fetched and each has a valid sell order; the evaluation has
    one line per component, priced at the lowest valid sell price of its
    book.  A root or a single component without a valid sell order makes
    [calculate_set_profit] return [None].  A declared part that is not in
    the id index, or whose details cannot be had, is not among the
    fetched parts, hence in no evaluation. *)
Theorem evaluation_only_when_all_priced (w : World) :
  (forall item st ev st',
     calculate_set_profit w item st = Ok (Some ev, st') ->
     exists root comps st2,
       resolves w item st root comps st2 /\
       books_priced w (d_slug root :: map d_slug comps)
         (set_price ev :: map unit_price (components ev)) st2 st' /\
       map c_name (components ev) = map d_name comps /\
       map c_qty (components ev) = map quantity_of comps /\
       cost ev = Py.sum (map line_cost (components ev))) /\
  (forall item st root comps st2 orders st3,
     resolves w item st root comps st2 ->
     get_orders w (d_slug root) st2 = Ok (orders, st3) ->
     (forall o, In o orders -> ~ is_valid_sell o) ->
     calculate_set_profit w item st = Ok (None, st3)) /\
  (forall item st root before comp after st2 prices st3 orders st4,
     resolves w item st root (before ++ comp :: after) st2 ->
     books_priced w (d_slug root :: map d_slug before) prices st2 st3 ->
     get_orders w (d_slug comp) st3 = Ok (orders, st4) ->
     (forall o, In o orders -> ~ is_valid_sell o) ->
     calculate_set_profit w item st = Ok (None, st4)) /\
  (forall pid parts_ids st,
     all_items_map st !! pid = None ->
     fetched_parts w (pid :: parts_ids) st = fetched_parts w parts_ids st) /\
  (forall pid parts_ids st p_slug st1,
     all_items_map st !! pid = Some p_slug ->
     get_item_details w p_slug st = Ok (None, st1) ->
     fetched_parts w (pid :: parts_ids) st = fetched_parts w parts_ids st1).
Proof.
  split; [|split; [|split; [|split]]].
  - intros item st ev st' Hcalc.
    apply calculate_set_profit_Some in Hcalc as (root & comps & st2 & Hres & Hprice).
    apply price_set_Some in Hprice as (_ & Hbooks & Hnames & Hqty & Hcost & _).
    by exists root, comps, st2.
  - intros item st root comps st2 orders st3 Hres Horders Hnone.
    rewrite (calculate_set_profit_resolved _ _ _ _ _ _ Hres).
    rewrite price_set_spec, Horders.
    apply lowest_is_Inf in Hnone. by rewrite Hnone.
  - intros item st root before comp after st2 prices st3 orders st4
      Hres Hbooks Horders Hnone.
    rewrite (calculate_set_profit_resolved _ _ _ _ _ _ Hres).
    destruct prices as [|p prices]; [done|].
    destruct Hbooks as (root_orders & st2' & Hro & Hex & Hmin & Hbooks).
    rewrite price_set_spec, Hro.
    assert (get_lowest_sell_price root_orders = Platinum p) as ->
      by (by apply lowest_is_Platinum).
    by rewrite (components_loop_unpriced w _ _ _ _ _ _ _ _ _ _ Hbooks Horders Hnone).
  - intros pid parts_ids st Hid. by rewrite fetched_parts_cons, Hid.
  - intros pid parts_ids st p_slug st1 Hid Hdetails.
    rewrite fetched_parts_cons, Hid, Hdetails.
    by destruct (fetched_parts w parts_ids st1) as [[rest st2]|e].
Qed.

(** C1 as stated fails: an evaluation that leaves out a declared part is
    produced.  The set declares the barrel ([a2]), the id index knows it
    and its order book has a valid sell order at 40, but its details
    cannot be had; the evaluation is returned with the blueprint as its
    only line and a cost of 100, not 140. *)
Lemma evaluation_omits_declared_part :
  let w := Scenario.barrel_missing in
  let st := Scenario.barrel_missing_loaded in
  setParts Scenario.alpha_root = Some ["a0"; "a1"; "a2"]%string /\
  all_items_map st !! "a2"%string = Some "alpha_prime_barrel"%string /\
  get_lowest_sell_price
    <$> Scenario.find "alpha_prime_barrel" Scenario.alpha_books
    = Some (Platinum 40) /\
  exists ev st',
    calculate_set_profit w Scenario.alpha_set st = Ok (Some ev, st') /\
    map c_name (components ev) = ["Alpha Blueprint"%string] /\
    cost ev = 100 /\
    profit ev = 200.
Proof.
  intros w st. split; [reflexivity|]. split; [vm_compute; reflexivity|].
  split; [reflexivity|]. eexists _, _.
  split; [vm_compute; reflexivity|]. by repeat split.
Qed.

(** C9: in the end-to-end scenario (root at 300, blueprint twice at 50,
    barrel once at 40) the scan returns the single evaluation the spec
    lists, with or without a callback; and for every evaluation the cost
    is the sum of unit price times quantity, the profit is the set price
    less the cost, and the trade count is the sum of the quantities plus
    one. *)
Theorem alpha_scenario_result :
  get_lowest_sell_price <$> Scenario.find "alpha_prime_set" Scenario.alpha_books
    = Some (Platinum 300) /\
  get_lowest_sell_price <$> Scenario.find "alpha_prime_blueprint" Scenario.alpha_books
    = Some (Platinum 50) /\
  get_lowest_sell_price <$> Scenario.find "alpha_prime_barrel" Scenario.alpha_books
    = Some (Platinum 40) /\
  (exists st',
     run_scan Scenario.alpha_world true (init_state 100000)
       = Ok (([Scenario.alpha_evaluation], [[Scenario.alpha_evaluation]]), st')) /\
  (exists st',
     run_scan Scenario.alpha_world false (init_state 100000)
       = Ok (([Scenario.alpha_evaluation], []), st')) /\
  (forall w item st ev st',
     calculate_set_profit w item st = Ok (Some ev, st') ->
     cost ev = Py.sum (map line_cost (components ev)) /\
     profit ev = set_price ev - cost ev /\
     trades ev = Py.sum (map c_qty (components ev)) + 1).
Proof.
  split; [reflexivity|]. split; [reflexivity|]. split; [reflexivity|].
  split; [eexists; vm_compute; reflexivity|].
  split; [eexists; vm_compute; reflexivity|].
  intros w item st ev st' Hcalc.
  apply calculate_set_profit_Some in Hcalc as (root & comps & st2 & _ & Hprice).
  by apply price_set_Some in Hprice as (_ & _ & _ & _ & Hcost & Hprofit & Htrades).
Qed.

(** ** The engine: the scan *)

Section Scan.
Context (w : World).

Lemma evaluate_all_cons item target_sets st :
  evaluate_all w (item :: target_sets) st =
  match calculate_set_profit w item st with
  | Ok (res, st1) =>
      match evaluate_all w target_sets st1 with
      | Ok (rest, st2) => Ok (res :: rest, st2)
      | Raise e => Raise e
      end
  | Raise e => Raise e
  end.
Proof.
  simpl. unfold bind.
  destruct (calculate_set_profit w item st) as [[res st1]|e]; [|done].
  by destruct (evaluate_all w target_sets st1) as [[rest st2]|e].
Qed.

Lemma scan_loop_cons progress_callback item target_sets results delivered st :
  scan_loop w progress_callback (item :: target_sets) results delivered st =
  match calculate_set_profit w item st with
  | Ok (Some res, st1) =>
      if 0 <? profit res then
        scan_loop w progress_callback target_sets (insert_result results res)
          (if progress_callback
           then delivered ++ [insert_result results res]
           else delivered) st1
      else scan_loop w progress_callback target_sets results delivered st1
  | Ok (None, st1) =>
      scan_loop w progress_callback target_sets results delivered st1
  | Raise e => Raise e
  end.
Proof.
  simpl. unfold bind.
  destruct (calculate_set_profit w item st) as [[[res|] st1]|e]; try done.
  by destruct (0 <? profit res).
Qed.

(** The scan evaluates the candidates in order and inserts the
    profitable evaluations one by one, passing the list to the callback
    after each insertion. *)
Lemma scan_loop_spec progress_callback target_sets results delivered st :
  scan_loop w progress_callback target_sets results delivered st =
  match evaluate_all w target_sets st with
  | Ok (outcomes, st') =>
      Ok ((fold_left insert_result (profitable outcomes) results,
           if progress_callback
           then delivered ++ snapshots results (profitable outcomes)
           else delivered), st')
  | Raise e => Raise e
  end.
Proof.
  revert results delivered st.
  induction target_sets as [|item target_sets IH]; intros results delivered st.
  - simpl. unfold ret. rewrite app_nil_r. by destruct progress_callback.
  - rewrite scan_loop_cons, evaluate_all_cons.
    destruct (calculate_set_profit w item st) as [[[res|] st1]|e]; [| |done].
    + destruct (0 <? profit res) eqn:Hp; rewrite IH;
        destruct (evaluate_all w target_sets st1) as [[rest st2]|e]; try done;
        unfold profitable; simpl; rewrite Hp; [|done].
      simpl. destruct progress_callback; [|done].
      by rewrite <- app_assoc.
    + rewrite IH.
      by destruct (evaluate_all w target_sets st1) as [[rest st2]|e].
Qed.

Lemma run_scan_spec progress_callback st :
  run_scan w progress_callback st =
  match initialize_items w st with
  | Ok (_, st0) =>
      match evaluate_all w (List.filter is_prime_set (all_items_data st0)) st0 with
      | Ok (outcomes, st') =>
          Ok ((fold_left insert_result (profitable outcomes) [],
               if progress_callback
               then snapshots [] (profitable outcomes)
               else []), st')
      | Raise e => Raise e
      end
  | Raise e => Raise e
  end.
Proof.
  unfold run_scan. unfold bind at 1.
  destruct (initialize_items w st) as [[[] st0]|e]; [|done].
  unfold bind, gets. cbv beta. by rewrite scan_loop_spec.
Qed.

End Scan.

Lemma insert_result_perm results res : insert_result results res ≡ₚ res :: results.
Proof.
  unfold insert_result. rewrite sort_by_perm.
  by rewrite Permutation_app_comm.
Qed.

Lemma fold_insert_result_perm new results :
  fold_left insert_result new results ≡ₚ results ++ new.
Proof.
  revert results. induction new as [|res new IH]; intros results; simpl.
  - by rewrite app_nil_r.
  - rewrite IH, insert_result_perm. simpl. apply Permutation_middle.
Qed.

Lemma fold_insert_result_sorted new results :
  StronglySorted (key_le cost) results ->
  StronglySorted (key_le cost) (fold_left insert_result new results).
Proof.
  revert results. induction new as [|res new IH]; intros results Hs; [done|].
  simpl. apply IH, sort_by_sorted.
Qed.

Lemma snapshots_sorted results new :
  Forall (StronglySorted (key_le cost)) (snapshots results new).
Proof.
  revert results. induction new as [|res new IH]; intros results; simpl.
  - constructor.
  - constructor; [apply sort_by_sorted|apply IH].
Qed.

(** The last snapshot is the final result list. *)
Lemma snapshots_last results new :
  new <> [] ->
  last (snapshots results new) = Some (fold_left insert_result new results).
Proof.
  revert results. induction new as [|res new IH]; intros results Hne; [done|].
  simpl. destruct new as [|res' new]; [done|].
  specialize (IH (insert_result results res)). simpl in *.
  rewrite <- IH by done. done.
Qed.

(** An evaluation is in some snapshot iff it was in the list before or is
    one of the inserted ones. *)
Lemma snapshots_In results new ev :
  new <> [] ->
  (exists snapshot, In snapshot (snapshots results new) /\ In ev snapshot) <->
  In ev (results ++ new).
Proof.
  revert results. induction new as [|res new IH]; intros results Hne; [done|].
  simpl. destruct new as [|res' new].
  - simpl. split.
    + intros (snapshot & [<-|[]] & Hin).
      eapply Permutation_in in Hin; [|apply insert_result_perm].
      apply in_app_iff. simpl in *. tauto.
    + intros Hin. exists (insert_result results res). split; [by left|].
      eapply Permutation_in; [symmetry; apply insert_result_perm|].
      apply in_app_iff in Hin. simpl in *. tauto.
  - specialize (IH (insert_result results res)).
    assert (forall x, In x (insert_result results res) <-> In x (res :: results))
      as Hperm.
    { intros x. split; apply Permutation_in;
        [apply insert_result_perm|symmetry; apply insert_result_perm]. }
    split.
    + intros (snapshot & [<-|Hsnap] & Hin).
      * apply Hperm in Hin. rewrite in_app_iff. simpl in *. tauto.
      * assert (In ev (insert_result results res ++ res' :: new)) as Hin'
          by (apply IH; [done|by exists snapshot]).
        rewrite in_app_iff, Hperm in Hin'. rewrite in_app_iff.
        simpl in *. tauto.
    + intros Hin.
      assert (In ev (insert_result results res ++ res' :: new)) as Hin'.
      { rewrite in_app_iff, Hperm. rewrite in_app_iff in Hin.
        simpl in *. tauto. }
      apply IH in Hin' as (snapshot & Hsnap & Hev); [|done].
      exists snapshot. split; [by right|done].
Qed.

Lemma profitable_In outcomes ev :
  In ev (profitable outcomes) <-> In (Some ev) outcomes /\ 0 < profit ev.
Proof.
  unfold profitable. rewrite filter_In, <- list_elem_of_In, list_elem_of_omap.
  rewrite Z.ltb_lt. split.
  - intros [(o & Ho & Hid) Hp]. simpl in Hid. subst o.
    by rewrite <- list_elem_of_In.
  - intros [Ho Hp]. split; [|done]. exists (Some ev).
    by rewrite list_elem_of_In.
Qed.

(** Every evaluation of a scan has the figures of [price_set]. *)
Lemma evaluate_all_profit w target_sets st outcomes st' ev :
  evaluate_all w target_sets st = Ok (outcomes, st') ->
  In (Some ev) outcomes ->
  profit ev = set_price ev - cost ev.
Proof.
  revert st outcomes. induction target_sets as [|item target_sets IH];
    intros st outcomes Hall Hin.
  - injection Hall as <- <-. done.
  - rewrite evaluate_all_cons in Hall.
    destruct (calculate_set_profit w item st) as [[res st1]|e] eqn:Hcalc; [|done].
    destruct (evaluate_all w target_sets st1) as [[rest st2]|e] eqn:Hrest; [|done].
    injection Hall as <- <-. destruct Hin as [->|Hin]; [|by eapply IH].
    apply calculate_set_profit_Some in Hcalc as (root & comps & st2' & _ & Hprice).
    by apply price_set_Some in Hprice as (_ & _ & _ & _ & _ & Hprofit & _).
Qed.

(** C6: the candidates of a scan are evaluated one after the other, and
    an evaluation is in the returned list iff it is the evaluation of one
    of them and its profit is positive; with a callback, the same holds
    for being in a list passed to the callback.  An evaluation with set
    price 100 and cost 150 is in neither. *)
Theorem scan_keeps_profitable w progress_callback st results delivered st' :
  run_scan w progress_callback st = Ok ((results, delivered), st') ->
  exists st0 outcomes,
    initialize_items w st = Ok (tt, st0) /\
    evaluate_all w (List.filter is_prime_set (all_items_data st0)) st0
      = Ok (outcomes, st') /\
    (forall ev, In ev results <-> In (Some ev) outcomes /\ 0 < profit ev) /\
    (progress_callback = true ->
     forall ev,
       (exists snapshot, In snapshot delivered /\ In ev snapshot) <->
       In (Some ev) outcomes /\ 0 < profit ev) /\
    (forall ev, In (Some ev) outcomes ->
       set_price ev = 100 -> cost ev = 150 ->
       profit ev = -50 /\ ~ In ev results /\
       ~ exists snapshot, In snapshot delivered /\ In ev snapshot).
Proof.
  rewrite run_scan_spec.
  destruct (initialize_items w st) as [[[] st0]|e] eqn:Hinit; [|done].
  destruct (evaluate_all w (List.filter is_prime_set (all_items_data st0)) st0)
    as [[outcomes st1]|e] eqn:Hall; [|done].
  intros [= <- <- <-]. exists st0, outcomes.
  assert (forall ev,
            In ev (fold_left insert_result (profitable outcomes) []) <->
            In (Some ev) outcomes /\ 0 < profit ev) as Hresults.
  { intros ev. rewrite <- profitable_In. split; apply Permutation_in.
    - apply fold_insert_result_perm.
    - symmetry. apply fold_insert_result_perm. }
  assert (forall ev,
            (exists snapshot,
               In snapshot (snapshots [] (profitable outcomes)) /\ In ev snapshot) <->
            In (Some ev) outcomes /\ 0 < profit ev) as Hdelivered.
  { intros ev. rewrite <- profitable_In.
    destruct (profitable outcomes) as [|res new] eqn:Hnew.
    - simpl. split; [by intros (snapshot & [] & _)|done].
    - by rewrite snapshots_In. }
  split; [done|]. split; [done|]. split; [done|].
  split; [by intros ->|].
  intros ev Hin Hprice Hcost.
  pose proof (evaluate_all_profit _ _ _ _ _ _ Hall Hin) as Hprofit.
  split; [lia|]. split.
  - intros [_ Hpos]%Hresults. lia.
  - destruct progress_callback.
    + intros [_ Hpos]%Hdelivered. lia.
    + by intros (snapshot & [] & _).
Qed.

Lemma scan_keeps_profitable_witness :
  exists st' st0 outcomes,
    initialize_items Scenario.market_world (init_state 100000) = Ok (tt, st0) /\
    evaluate_all Scenario.market_world
      (List.filter is_prime_set (all_items_data st0)) st0 = Ok (outcomes, st') /\
    (forall ev, In ev [Scenario.beta_evaluation; Scenario.alpha_evaluation] <->
                In (Some ev) outcomes /\ 0 < profit ev) /\
    (true = true ->
     forall ev,
       (exists snapshot,
          In snapshot [ [Scenario.alpha_evaluation];
                        [Scenario.beta_evaluation; Scenario.alpha_evaluation] ] /\
          In ev snapshot) <->
       In (Some ev) outcomes /\ 0 < profit ev) /\
    (forall ev, In (Some ev) outcomes ->
       set_price ev = 100 -> cost ev = 150 ->
       profit ev = -50 /\
       ~ In ev [Scenario.beta_evaluation; Scenario.alpha_evaluation] /\
       ~ exists snapshot,
           In snapshot [ [Scenario.alpha_evaluation];
                         [Scenario.beta_evaluation; Scenario.alpha_evaluation] ] /\
           In ev snapshot).
Proof.
  eexists.
  apply (scan_keeps_profitable Scenario.market_world true (init_state 100000)).
  vm_compute. reflexivity.
Defined.

(** In the market scenario the gamma set, with root price 100 and cost
    150, is evaluated and left out. *)
Lemma gamma_left_out :
  exists st0 st',
    initialize_items Scenario.market_world (init_state 100000) = Ok (tt, st0) /\
    evaluate_all Scenario.market_world
      (List.filter is_prime_set (all_items_data st0)) st0
      = Ok ([ Some Scenario.alpha_evaluation; Some Scenario.gamma_evaluation;
              Some Scenario.beta_evaluation ], st') /\
    run_scan Scenario.market_world true (init_state 100000)
      = Ok (([ Scenario.beta_evaluation; Scenario.alpha_evaluation ],
             [ [Scenario.alpha_evaluation];
               [Scenario.beta_evaluation; Scenario.alpha_evaluation] ]), st').
Proof.
  eexists _, _. split; [vm_compute; reflexivity|].
  split; vm_compute; reflexivity.
Qed.

(** C4: the list a scan returns and every list it passes to the callback
    are in non-decreasing order of cost; the callback gets one list per
    insertion, and the last one is the returned list. *)
Theorem scan_results_sorted w progress_callback st results delivered st' :
  run_scan w progress_callback st = Ok ((results, delivered), st') ->
  StronglySorted (key_le cost) results /\
  Forall (StronglySorted (key_le cost)) delivered /\
  (progress_callback = true -> length delivered = length results) /\
  (delivered <> [] -> last delivered = Some results).
Proof.
  rewrite run_scan_spec.
  destruct (initialize_items w st) as [[[] st0]|e]; [|done].
  destruct (evaluate_all w (List.filter is_prime_set (all_items_data st0)) st0)
    as [[outcomes st1]|e]; [|done].
  intros [= <- <- <-].
  split; [apply fold_insert_result_sorted; constructor|].
  destruct progress_callback.
  - split; [apply snapshots_sorted|]. split.
    + intros _. rewrite (Permutation_length (fold_insert_result_perm _ _)).
      simpl. generalize (@nil evaluation).
      induction (profitable outcomes) as [|res new IH]; intros results; [done|].
      simpl. by rewrite IH.
    + intros Hne. apply snapshots_last. by intros Hnil; rewrite Hnil in Hne.
  - split; [constructor|]. split; done.
Qed.

Lemma scan_results_sorted_witness :
  StronglySorted (key_le cost)
    [Scenario.beta_evaluation; Scenario.alpha_evaluation] /\
  Forall (StronglySorted (key_le cost))
    [ [Scenario.alpha_evaluation];
      [Scenario.beta_evaluation; Scenario.alpha_evaluation] ] /\
  (true = true ->
   length [ [Scenario.alpha_evaluation];
            [Scenario.beta_evaluation; Scenario.alpha_evaluation] ]
   = length [Scenario.beta_evaluation; Scenario.alpha_evaluation]) /\
  ([ [Scenario.alpha_evaluation];
     [Scenario.beta_evaluation; Scenario.alpha_evaluation] ] <> [] ->
   last [ [Scenario.alpha_evaluation];
          [Scenario.beta_evaluation; Scenario.alpha_evaluation] ]
   = Some [Scenario.beta_evaluation; Scenario.alpha_evaluation]).
Proof.
  eapply (scan_results_sorted Scenario.market_world true (init_state 100000)).
  vm_compute. reflexivity.
Defined.

(** ** Nothing is raised under normal operation *)

Section Total.
Context (w : World) (Hw : normal_operation w).

Lemma initialize_items_total st :
  exists st', initialize_items w st = Ok (tt, st').
Proof.
  unfold initialize_items, bind at 1, gets. cbv beta.
  destruct (all_items_data st) as [|item items]; [|by eexists].
  destruct (get_all_items_total w st Hw) as (items & st1 & Hitems).
  rewrite (bind_eq _ _ _ _ _ Hitems). by eexists.
Qed.

Lemma fetched_parts_total parts_ids st :
  exists fetched st', fetched_parts w parts_ids st = Ok (fetched, st').
Proof.
  revert st. induction parts_ids as [|pid parts_ids IH]; intros st.
  - by eexists _, _.
  - rewrite fetched_parts_cons.
    destruct (all_items_map st !! pid) as [p_slug|]; [|apply IH].
    destruct (get_item_details_total w p_slug st Hw) as (p & st1 & ->).
    destruct (IH st1) as (rest & st2 & ->). by eexists _, _.
Qed.

Lemma components_loop_total components total_cost component_data st :
  exists priced st',
    components_loop w components total_cost component_data st = Ok (priced, st').
Proof.
  revert total_cost component_data st.
  induction components as [|comp components IH];
    intros total_cost component_data st.
  - by eexists _, _.
  - rewrite components_loop_cons.
    destruct (get_orders_total w (d_slug comp) st Hw) as (orders & st1 & ->).
    destruct (get_lowest_sell_price orders); [apply IH|by eexists _, _].
Qed.

Lemma price_set_total set_root_item components st :
  exists res st', price_set w set_root_item components st = Ok (res, st').
Proof.
  rewrite price_set_spec.
  destruct (get_orders_total w (d_slug set_root_item) st Hw)
    as (orders & st1 & ->).
  destruct (get_lowest_sell_price orders); [|by eexists _, _].
  destruct (components_loop_total components 0 [] st1)
    as ([[total_cost component_data]|] & st2 & ->); by eexists _, _.
Qed.

Lemma calculate_set_profit_total set_item_summary st :
  exists res st', calculate_set_profit w set_item_summary st = Ok (res, st').
Proof.
  rewrite calculate_set_profit_spec.
  destruct (get_item_details_total w (sm_slug set_item_summary) st Hw)
    as ([set_details|] & st1 & ->); [|by eexists _, _].
  destruct (setParts set_details) as [parts_ids|]; [|by eexists _, _].
  destruct (fetched_parts_total parts_ids st1) as (fetched & st2 & ->).
  destruct (resolve_root set_details (flagged_root None fetched));
    [apply price_set_total|by eexists _, _].
Qed.

Lemma evaluate_all_total target_sets st :
  exists outcomes st', evaluate_all w target_sets st = Ok (outcomes, st').
Proof.
  revert st. induction target_sets as [|item target_sets IH]; intros st.
  - by eexists _, _.
  - rewrite evaluate_all_cons.
    destruct (calculate_set_profit_total item st) as (res & st1 & ->).
    destruct (IH st1) as (rest & st2 & ->). by eexists _, _.
Qed.

Lemma run_scan_total progress_callback st :
  exists results delivered st',
    run_scan w progress_callback st = Ok ((results, delivered), st').
Proof.
  rewrite run_scan_spec.
  destruct (initialize_items_total st) as (st0 & ->).
  destruct (evaluate_all_total (List.filter is_prime_set (all_items_data st0)) st0)
    as (outcomes & st1 & ->).
  by eexists _, _, _.
Qed.

End Total.

(** C5, as it holds on the code.  When the request for the item list, an order
    book or an item that is not cached fails in transport ([session.get]
    raises a [RequestException], the status is 400 to 599, or the body is
    not JSON), the operation returns the empty list, the empty list and
    [None]; and under normal operation [run_scan] returns its lists,
    whatever fails in transport. *)
Theorem transport_failures_absorbed (w : World) :
  (forall st,
     transport_failure (serve w ITEMS_URL (length (sends st))) ->
     exists st', get_all_items w st = Ok ([], st')) /\
  (forall url_name st,
     transport_failure (serve w (ORDERS_URL url_name) (length (sends st))) ->
     exists st', get_orders w url_name st = Ok ([], st')) /\
  (forall url_name st,
     item_cache st !! url_name = None ->
     transport_failure (serve w (ITEM_URL url_name) (length (sends st))) ->
     exists st',
       get_item_details w url_name st = Ok (None, st') /\
       item_cache st' = item_cache st) /\
  (normal_operation w ->
   forall progress_callback st,
     exists results delivered st',
       run_scan w progress_callback st = Ok ((results, delivered), st')).
Proof.
  split; [apply get_all_items_transport_failure|].
  split; [apply get_orders_transport_failure|].
  split; [apply get_item_details_transport_failure|].
  intros Hw progress_callback st. by apply run_scan_total.
Qed.

(** With the service out of reach the scan returns the empty list. *)
Lemma run_scan_unreachable progress_callback :
  exists st',
    run_scan (Scenario.unreachable 5) progress_callback (init_state 100000)
      = Ok (([], []), st').
Proof. destruct progress_callback; eexists; vm_compute; reflexivity. Qed.


(** * Further properties of the code *)

(** ** The lowest price depends on the valid orders only *)

Lemma lowest_price_ext orders orders' :
  (forall p, valid_price orders p <-> valid_price orders' p) ->
  get_lowest_sell_price orders = get_lowest_sell_price orders'.
Proof.
  intros Hext. destruct (get_lowest_sell_price orders) as [m|] eqn:Hp.
  - apply lowest_is_Platinum in Hp as [Hex Hmin].
    symmetry. apply lowest_is_Platinum. split; [by apply Hext|].
    intros o Ho Hv.
    assert (valid_price orders (platinum o)) as (o1 & Ho1 & Hv1 & <-)
      by (apply Hext; by exists o).
    by apply Hmin.
  - symmetry. apply lowest_is_Inf. intros o Ho Hv.
    assert (valid_price orders (platinum o)) as (o1 & Ho1 & Hv1 & _)
      by (apply Hext; by exists o).
    by apply (proj1 (lowest_is_Inf orders) Hp o1).
Qed.

(** X1: the lowest valid sell price does not depend on the order in
    which the book lists the orders, and orders that are not sell orders
    of an online or ingame seller, wherever they stand, do not change
    it. *)
Theorem lowest_price_ignores_order_and_noise orders orders' noise :
  orders' ≡ₚ orders ++ noise ->
  Forall (fun o => ~ is_valid_sell o) noise ->
  get_lowest_sell_price orders' = get_lowest_sell_price orders.
Proof.
  intros Hperm Hnoise. apply lowest_price_ext. intros p.
  rewrite List.Forall_forall in Hnoise.
  split; intros (o & Ho & Hv & Hp); exists o; (split; [|done]).
  - eapply Permutation_in in Ho; [|exact Hperm].
    apply in_app_iff in Ho as [Ho|Ho]; [done|]. by destruct (Hnoise o Ho).
  - eapply Permutation_in; [symmetry; exact Hperm|].
    apply in_app_iff. by left.
Qed.

Lemma lowest_price_ignores_order_and_noise_witness :
  get_lowest_sell_price Scenario.example_orders
  = get_lowest_sell_price
      [ mk_order "sell" 200 "ingame"; mk_order "sell" 120 "online" ].
Proof.
  apply (lowest_price_ignores_order_and_noise _ _
           [ mk_order "buy" 50 "online"; mk_order "sell" 90 "offline" ]).
  - unfold Scenario.example_orders. simpl.
    apply Permutation_sym.
    eapply Permutation_trans; [apply perm_swap|]. apply perm_skip.
    eapply Permutation_trans; [apply perm_skip, perm_swap|].
    eapply Permutation_trans; [apply perm_swap|]. apply perm_skip.
    apply perm_swap.
  - repeat constructor; unfold is_valid_sell; simpl; intros [H1 [H2|H2]];
      discriminate.
Defined.

(** X2: further orders in the book never raise the lowest valid sell
    price. *)
Theorem lowest_price_antitone orders more :
  price_le (get_lowest_sell_price (orders ++ more))
           (get_lowest_sell_price orders).
Proof.
  unfold price_le.
  destruct (get_lowest_sell_price orders) as [m|] eqn:Hp;
    destruct (get_lowest_sell_price (orders ++ more)) as [m'|] eqn:Hp';
    simpl; try done.
  - apply lowest_is_Platinum in Hp as [(o & Ho & Hv & <-) _].
    apply lowest_is_Platinum in Hp' as [_ Hmin].
    apply Z.ltb_ge. apply Hmin; [|done]. apply in_app_iff. by left.
  - apply lowest_is_Platinum in Hp as [(o & Ho & Hv & _) _].
    destruct (proj1 (lowest_is_Inf _) Hp' o); [|done].
    apply in_app_iff. by left.
Qed.

(** ** Sorting after every insertion is sorting once *)

Section StableSort.
Context {A : Type} (key : A -> Z).

Lemma insert_by_comm z y l :
  key z < key y ->
  Py.insert_by key z (Py.insert_by key y l)
  = Py.insert_by key y (Py.insert_by key z l).
Proof.
  intros Hzy. induction l as [|a l IH]; simpl.
  - destruct (Z.leb_spec (key z) (key y)), (Z.leb_spec (key y) (key z));
      try lia; done.
  - destruct (Z.leb_spec (key y) (key a)) as [Hya|Hya];
      destruct (Z.leb_spec (key z) (key a)) as [Hza|Hza]; simpl; try lia.
    + destruct (Z.leb_spec (key z) (key y)), (Z.leb_spec (key y) (key z)),
        (Z.leb_spec (key y) (key a)); try lia; done.
    + destruct (Z.leb_spec (key z) (key a)), (Z.leb_spec (key y) (key z)),
        (Z.leb_spec (key y) (key a)); try lia; done.
    + destruct (Z.leb_spec (key z) (key a)), (Z.leb_spec (key y) (key a));
        try lia. by rewrite IH.
Qed.

Lemma fold_insert_by_insert acc y s :
  fold_right (Py.insert_by key) acc (Py.insert_by key y s)
  = Py.insert_by key y (fold_right (Py.insert_by key) acc s).
Proof.
  induction s as [|z s IH]; simpl; [done|].
  destruct (Z.leb_spec (key y) (key z)) as [Hyz|Hyz]; simpl; [done|].
  rewrite IH. by apply insert_by_comm.
Qed.

Lemma fold_insert_by_sort acc l :
  fold_right (Py.insert_by key) acc (Py.sort_by key l)
  = fold_right (Py.insert_by key) acc l.
Proof.
  induction l as [|y l IH]; simpl; [done|].
  fold (Py.sort_by key l). by rewrite fold_insert_by_insert, IH.
Qed.

(** Appending to the sorted list and sorting again gives the sorted list
    of all elements. *)
Lemma sort_by_snoc l x :
  Py.sort_by key (Py.sort_by key l ++ [x]) = Py.sort_by key (l ++ [x]).
Proof.
  unfold Py.sort_by at 1 3. rewrite !fold_right_app.
  apply fold_insert_by_sort.
Qed.

Lemma insert_by_filter k x l :
  List.filter (fun a => key a =? k) (Py.insert_by key x l)
  = List.filter (fun a => key a =? k) (x :: l).
Proof.
  induction l as [|y l IH]; [done|].
  simpl. destruct (Z.leb_spec (key x) (key y)) as [Hxy|Hxy]; [done|].
  simpl. simpl in IH. rewrite IH.
  destruct (Z.eqb_spec (key x) k), (Z.eqb_spec (key y) k); try done. lia.
Qed.

(** Elements of equal key keep their order. *)
Lemma sort_by_stable k l :
  List.filter (fun a => key a =? k) (Py.sort_by key l)
  = List.filter (fun a => key a =? k) l.
Proof.
  induction l as [|x l IH]; [done|].
  simpl. fold (Py.sort_by key l). rewrite insert_by_filter. simpl.
  by rewrite IH.
Qed.

End StableSort.

Lemma fold_insert_result_sort new before :
  fold_left insert_result new (Py.sort_by cost before)
  = Py.sort_by cost (before ++ new).
Proof.
  revert before. induction new as [|res new IH]; intros before; simpl.
  - by rewrite app_nil_r.
  - unfold insert_result at 2. rewrite sort_by_snoc, IH.
    by rewrite <- app_assoc.
Qed.

Lemma snapshots_sort new before :
  snapshots (Py.sort_by cost before) new
  = map (fun k => Py.sort_by cost (before ++ take k new))
        (seq 1 (length new)).
Proof.
  revert before. induction new as [|res new IH]; intros before; [done|].
  simpl. unfold insert_result. rewrite sort_by_snoc. f_equal.
  rewrite IH, <- (seq_shift (length new) 1), map_map.
  apply map_ext. intros k. simpl.
  by rewrite <- app_assoc.
Qed.

(** X3: the list a scan returns is the stable sort by cost of the
    profitable evaluations in the order the candidates were scanned:
    evaluations of equal cost stay in scan order.  With a callback, the
    [k]-th list it gets is the stable sort of the first [k] of them. *)
Theorem scan_is_one_stable_sort w progress_callback st results delivered st' :
  run_scan w progress_callback st = Ok ((results, delivered), st') ->
  exists st0 outcomes,
    initialize_items w st = Ok (tt, st0) /\
    evaluate_all w (List.filter is_prime_set (all_items_data st0)) st0
      = Ok (outcomes, st') /\
    results = Py.sort_by cost (profitable outcomes) /\
    (forall c,
       List.filter (fun ev => cost ev =? c) results
       = List.filter (fun ev => cost ev =? c) (profitable outcomes)) /\
    (progress_callback = true ->
     delivered
     = map (fun k => Py.sort_by cost (take k (profitable outcomes)))
           (seq 1 (length (profitable outcomes)))).
Proof.
  rewrite run_scan_spec.
  destruct (initialize_items w st) as [[[] st0]|e] eqn:Hinit; [|done].
  destruct (evaluate_all w (List.filter is_prime_set (all_items_data st0)) st0)
    as [[outcomes st1]|e] eqn:Hall; [|done].
  intros [= <- <- <-]. exists st0, outcomes.
  split; [done|]. split; [done|].
  change (@nil evaluation) with (Py.sort_by cost (@nil evaluation)).
  rewrite fold_insert_result_sort, app_nil_l.
  split; [done|]. split; [intros c; apply sort_by_stable|].
  intros ->. by rewrite snapshots_sort.
Qed.

(** ** What one client operation does to the state *)

Section Effects.
Context (w : World).

Lemma _get_frame u st r st' :
  _get w u st = Ok (r, st') ->
  item_cache st' = item_cache st /\ same_catalog st st'.
Proof.
  rewrite _get_cases. unfold except_RequestException, same_catalog.
  destruct (serve w u (length (sends st))) as [e|status_code body]; simpl.
  - destruct (is_RequestException e); [|done]. by intros [= _ <-].
  - destruct (raise_for_status status_code) as [e|].
    + destruct (is_RequestException e); [|done]. by intros [= _ <-].
    + destruct body; by intros [= _ <-].
Qed.

Lemma get_orders_effect url_name st orders st' :
  get_orders w url_name st = Ok (orders, st') ->
  sends st' = sends st ++ [(send_time st, ORDERS_URL url_name)] /\
  item_cache st' = item_cache st /\
  same_catalog st st'.
Proof.
  unfold get_orders, bind.
  destruct (_get w (ORDERS_URL url_name) st) as [[data st1]|e] eqn:Hget; [|done].
  pose proof (_get_sends _ _ _ _ _ Hget) as Hsends.
  pose proof (_get_frame _ _ _ _ Hget) as [Hcache Hcat].
  destruct data as [[| |]|]; simpl; try done; by intros [= _ <-].
Qed.

(** X4: [get_orders] never uses the cache: every call that returns has
    sent exactly one request, for the order book of that slug, and has
    left the cache, the id index and the item list as they were. *)
Theorem get_orders_always_requests url_name st orders st' :
  get_orders w url_name st = Ok (orders, st') ->
  sends st' = sends st ++ [(send_time st, ORDERS_URL url_name)] /\
  item_cache st' = item_cache st /\
  same_catalog st st'.
Proof. apply get_orders_effect. Qed.

Lemma get_all_items_effect st items st' :
  get_all_items w st = Ok (items, st') ->
  sends st' = sends st ++ [(send_time st, ITEMS_URL)] /\
  item_cache st' = item_cache st /\
  same_catalog st st'.
Proof.
  unfold get_all_items, bind.
  destruct (_get w ITEMS_URL st) as [[data st1]|e] eqn:Hget; [|done].
  pose proof (_get_sends _ _ _ _ _ Hget) as Hsends.
  pose proof (_get_frame _ _ _ _ Hget) as [Hcache Hcat].
  destruct data as [[| |]|]; simpl; try done; by intros [= _ <-].
Qed.

Lemma get_item_details_step url_name st details st' :
  get_item_details w url_name st = Ok (details, st') ->
  same_catalog st st' /\
  match item_cache st !! url_name with
  | Some cached => details = Some cached /\ st' = st
  | None =>
      sends st' = sends st ++ [(send_time st, ITEM_URL url_name)] /\
      item_cache st'
      = match details with
        | Some item_data => <[url_name := item_data]> (item_cache st)
        | None => item_cache st
        end
  end.
Proof.
  destruct (item_cache st !! url_name) as [cached|] eqn:Hc.
  - rewrite (get_item_details_hit _ _ _ _ Hc). by intros [= <- <-].
  - rewrite get_item_details_miss by done. unfold bind at 1.
    destruct (_get w (ITEM_URL url_name) st) as [[data st1]|e] eqn:Hget; [|done].
    pose proof (_get_sends _ _ _ _ _ Hget) as Hsends.
    pose proof (_get_frame _ _ _ _ Hget) as [Hcache Hcat].
    destruct data as [[| |]|]; simpl; try done.
    + by intros [= <- <-].
    + unfold bind, modify, ret. simpl. intros [= <- <-]. simpl.
      by rewrite Hcache.
    + by intros [= <- <-].
Qed.

(** X5: a call of [get_item_details] for a cached slug returns the cached
    payload and changes nothing, the clock included.  A call for a slug
    that is not cached sends exactly one request, for that slug, and
    the cache afterwards is the old one plus the returned payload under
    the slug, or the old one when nothing is returned.  The id index and
    the item list are never touched. *)
Theorem get_item_details_effect url_name st details st' :
  get_item_details w url_name st = Ok (details, st') ->
  same_catalog st st' /\
  match item_cache st !! url_name with
  | Some cached => details = Some cached /\ st' = st
  | None =>
      sends st' = sends st ++ [(send_time st, ITEM_URL url_name)] /\
      item_cache st'
      = match details with
        | Some item_data => <[url_name := item_data]> (item_cache st)
        | None => item_cache st
        end
  end.
Proof. apply get_item_details_step. Qed.

Lemma get_item_details_cache_grows url_name st details st' :
  get_item_details w url_name st = Ok (details, st') ->
  item_cache st ⊆ item_cache st'.
Proof.
  intros [_ Heff]%get_item_details_step.
  destruct (item_cache st !! url_name) as [cached|] eqn:Hc.
  - by destruct Heff as [_ ->].
  - destruct Heff as [_ ->]. destruct details; [|done].
    by apply insert_subseteq.
Qed.

End Effects.

(** ** Invariants of a scan *)

(** A property of the state that the two fetching operations keep is kept
    by every step of the engine. *)
Section Invariant.
Context (w : World) (Inv : state -> Prop).
Hypothesis Inv_details : forall url_name st details st',
  Inv st -> get_item_details w url_name st = Ok (details, st') -> Inv st'.
Hypothesis Inv_orders : forall url_name st orders st',
  Inv st -> get_orders w url_name st = Ok (orders, st') -> Inv st'.

Lemma fetched_parts_inv parts_ids st fetched st' :
  Inv st -> fetched_parts w parts_ids st = Ok (fetched, st') -> Inv st'.
Proof.
  revert st fetched. induction parts_ids as [|pid parts_ids IH];
    intros st fetched Hst.
  - by intros [= _ <-].
  - rewrite fetched_parts_cons.
    destruct (all_items_map st !! pid) as [p_slug|]; [|by apply IH].
    destruct (get_item_details w p_slug st) as [[p st1]|e] eqn:Hd; [|done].
    destruct (fetched_parts w parts_ids st1) as [[rest st2]|e] eqn:Hf; [|done].
    intros [= _ <-]. eapply IH; [|exact Hf]. by eapply Inv_details.
Qed.

Lemma components_loop_inv components total_cost component_data st priced st' :
  Inv st ->
  components_loop w components total_cost component_data st = Ok (priced, st') ->
  Inv st'.
Proof.
  revert total_cost component_data st.
  induction components as [|comp components IH];
    intros total_cost component_data st Hst.
  - by intros [= _ <-].
  - rewrite components_loop_cons.
    destruct (get_orders w (d_slug comp) st) as [[orders st1]|e] eqn:Ho; [|done].
    assert (Inv st1) as Hst1 by (by eapply Inv_orders).
    destruct (get_lowest_sell_price orders); [by apply IH|].
    by intros [= _ <-].
Qed.

Lemma price_set_inv set_root_item components st res st' :
  Inv st -> price_set w set_root_item components st = Ok (res, st') -> Inv st'.
Proof.
  intros Hst. rewrite price_set_spec.
  destruct (get_orders w (d_slug set_root_item) st) as [[orders st1]|e] eqn:Ho;
    [|done].
  assert (Inv st1) as Hst1 by (by eapply Inv_orders).
  destruct (get_lowest_sell_price orders); [|by intros [= _ <-]].
  destruct (components_loop w components 0 [] st1)
    as [[priced st2]|e] eqn:Hloop; [|done].
  assert (Inv st2) as Hst2 by (by eapply components_loop_inv).
  destruct priced as [[total_cost component_data]|]; by intros [= _ <-].
Qed.

Lemma calculate_set_profit_inv set_item_summary st res st' :
  Inv st -> calculate_set_profit w set_item_summary st = Ok (res, st') -> Inv st'.
Proof.
  intros Hst. rewrite calculate_set_profit_spec.
  destruct (get_item_details w (sm_slug set_item_summary) st)
    as [[set_details st1]|e] eqn:Hd; [|done].
  assert (Inv st1) as Hst1 by (by eapply Inv_details).
  destruct set_details as [set_details|]; [|by intros [= _ <-]].
  destruct (setParts set_details) as [parts_ids|]; [|by intros [= _ <-]].
  destruct (fetched_parts w parts_ids st1) as [[fetched st2]|e] eqn:Hf; [|done].
  assert (Inv st2) as Hst2 by (by eapply fetched_parts_inv).
  destruct (resolve_root set_details (flagged_root None fetched));
    [by apply price_set_inv|by intros [= _ <-]].
Qed.

Lemma evaluate_all_inv target_sets st outcomes st' :
  Inv st -> evaluate_all w target_sets st = Ok (outcomes, st') -> Inv st'.
Proof.
  revert st outcomes. induction target_sets as [|item target_sets IH];
    intros st outcomes Hst.
  - by intros [= _ <-].
  - rewrite evaluate_all_cons.
    destruct (calculate_set_profit w item st) as [[res st1]|e] eqn:Hc; [|done].
    destruct (evaluate_all w target_sets st1) as [[rest st2]|e] eqn:Hr; [|done].
    intros [= _ <-]. eapply IH; [|exact Hr]. by eapply calculate_set_profit_inv.
Qed.

(** With [initialize_items] keeping it too, a whole scan keeps it. *)
Lemma run_scan_inv progress_callback st out st' :
  (forall st st', Inv st -> initialize_items w st = Ok (tt, st') -> Inv st') ->
  Inv st -> run_scan w progress_callback st = Ok (out, st') -> Inv st'.
Proof.
  intros Inv_init Hst. rewrite run_scan_spec.
  destruct (initialize_items w st) as [[[] st0]|e] eqn:Hinit; [|done].
  destruct (evaluate_all w (List.filter is_prime_set (all_items_data st0)) st0)
    as [[outcomes st1]|e] eqn:Hall; [|done].
  intros [= _ <-]. eapply evaluate_all_inv; [|exact Hall]. by eapply Inv_init.
Qed.

End Invariant.

(** ** The item list and the id index *)

Lemma index_lookup items (ids : gmap string string) id :
  fold_left (fun m item => <[sm_id item := sm_slug item]> m) items ids !! id
  = match last (List.filter (fun i => String.eqb (sm_id i) id) items) with
    | Some i => Some (sm_slug i)
    | None => ids !! id
    end.
Proof.
  revert ids. induction items as [|i items IH]; intros ids; [done|].
  simpl. rewrite IH.
  destruct (String.eqb_spec (sm_id i) id) as [Heq|Hne].
  - destruct (List.filter _ items) as [|j l] eqn:Hf.
    + simpl. rewrite Heq. apply lookup_insert_eq.
    + rewrite last_cons_cons.
      destruct (last (j :: l)) eqn:Hl; [done|]. by apply last_None in Hl.
  - destruct (last (List.filter _ items)); [done|].
    by apply lookup_insert_ne.
Qed.

Section Catalog.
Context (w : World).

Lemma initialize_items_effect st st' :
  initialize_items w st = Ok (tt, st') ->
  item_cache st' = item_cache st /\
  match all_items_data st with
  | _ :: _ => st' = st
  | [] =>
      exists items st1,
        get_all_items w st = Ok (items, st1) /\
        sends st' = sends st1 /\
        last_request_time st' = last_request_time st1 /\
        all_items_data st' = items /\
        all_items_map st'
        = fold_left (fun m item => <[sm_id item := sm_slug item]> m)
                    items (all_items_map st) /\
        now st' = now st1
  end.
Proof.
  unfold initialize_items, bind at 1, gets. cbv beta.
  destruct (all_items_data st) as [|item items] eqn:Hdata.
  - unfold bind at 1.
    destruct (get_all_items w st) as [[items st1]|e] eqn:Hitems; [|done].
    pose proof (get_all_items_effect _ _ _ _ Hitems) as (_ & Hcache & Hmap & _).
    unfold bind, modify. simpl. intros [= <-]. simpl.
    split; [done|]. exists items, st1. by rewrite Hmap.
  - by intros [= <-].
Qed.

(** X6: the id index follows the item list.  If, before a scan, every id
    of the index leads to the slug of the last item of the list with that
    id (as in a fresh process, where both are empty), the same holds
    after the scan; and a list that was loaded is not loaded again: the
    scan leaves list and index as they were. *)
Theorem index_follows_item_list progress_callback st out st' :
  indexed st ->
  run_scan w progress_callback st = Ok (out, st') ->
  indexed st' /\ (all_items_data st <> [] -> same_catalog st st').
Proof.
  intros Hidx Hscan. split.
  - revert Hidx Hscan. apply run_scan_inv.
    + intros url_name st1 details st2 Hst1 [[Hmap Hdata] _]%get_item_details_step.
      unfold indexed. by rewrite Hmap, Hdata.
    + intros url_name st1 orders st2 Hst1 (_ & _ & Hmap & Hdata)%get_orders_effect.
      unfold indexed. by rewrite Hmap, Hdata.
    + intros st1 st2 Hst1 [_ Hinit]%initialize_items_effect.
      destruct (all_items_data st1) as [|item items] eqn:Hdata; [|by subst].
      destruct Hinit as (items & st3 & _ & _ & _ & Hd & Hm & _).
      intros id. rewrite Hm, Hd, index_lookup, Hst1, Hdata. simpl.
      by destruct (last (List.filter _ items)).
  - intros Hloaded. revert Hscan.
    apply (run_scan_inv w (fun st1 => same_catalog st st1)).
    + intros url_name st1 details st2 [Hm Hd] [[Hmap Hdata] _]%get_item_details_step.
      split; congruence.
    + intros url_name st1 orders st2 [Hm Hd] (_ & _ & Hmap & Hdata)%get_orders_effect.
      split; congruence.
    + intros st1 st2 [Hm Hd] [_ Hinit]%initialize_items_effect.
      destruct (all_items_data st1) eqn:Hdata; [congruence|].
      subst. split; congruence.
    + by split.
Qed.

End Catalog.

(** ** The cache and the requests of a scan *)

Section Requests.
Context (w : World).

(** X7: a scan only adds to the cache: an entry that is cached is never
    removed or replaced, so a slug cached before the scan is answered
    from the cache after it, with the same payload and no request. *)
Theorem scan_cache_grows progress_callback st out st' :
  run_scan w progress_callback st = Ok (out, st') ->
  item_cache st ⊆ item_cache st' /\
  forall url_name cached,
    item_cache st !! url_name = Some cached ->
    get_item_details w url_name st' = Ok (Some cached, st').
Proof.
  intros Hscan.
  assert (item_cache st ⊆ item_cache st') as Hsub.
  { revert Hscan. apply (run_scan_inv w (fun st1 => item_cache st ⊆ item_cache st1)).
    - intros url_name st1 details st2 Hst1 Hd%get_item_details_cache_grows.
      by transitivity (item_cache st1).
    - intros url_name st1 orders st2 Hst1 (_ & Hcache & _)%get_orders_effect.
      by rewrite Hcache.
    - intros st1 st2 Hst1 [Hcache _]%initialize_items_effect. by rewrite Hcache.
    - done. }
  split; [done|]. intros url_name cached Hc.
  apply get_item_details_hit. by eapply lookup_weaken.
Qed.

Lemma only_needed_details url_name st0 st details st' :
  only_needed st0 st ->
  get_item_details w url_name st = Ok (details, st') ->
  only_needed st0 st'.
Proof.
  intros [Hsub (new & Hsends & Hnew)] Hd.
  pose proof (get_item_details_cache_grows _ _ _ _ _ Hd) as Hgrow.
  apply get_item_details_step in Hd as [_ Heff].
  split; [by transitivity (item_cache st)|].
  destruct (item_cache st !! url_name) as [cached|] eqn:Hc.
  - destruct Heff as [_ ->]. by exists new.
  - destruct Heff as [Hs _]. exists (new ++ [(send_time st, ITEM_URL url_name)]).
    rewrite Hs, Hsends, <- app_assoc. split; [done|].
    apply Forall_app. split; [done|]. constructor; [|done]. simpl.
    destruct (item_cache st0 !! url_name) as [cached|] eqn:Hc0; [|done].
    by rewrite (lookup_weaken _ _ _ _ Hc0 Hsub) in Hc.
Qed.

Lemma only_needed_orders url_name st0 st orders st' :
  only_needed st0 st ->
  get_orders w url_name st = Ok (orders, st') ->
  only_needed st0 st'.
Proof.
  intros [Hsub (new & Hsends & Hnew)] (Hs & Hcache & _)%get_orders_effect.
  split; [by rewrite Hcache|].
  exists (new ++ [(send_time st, ORDERS_URL url_name)]).
  rewrite Hs, Hsends, <- app_assoc. split; [done|].
  apply Forall_app. split; [done|]. by constructor.
Qed.

(** X8: a scan asks for the item list only if the list is empty when it
    starts, and then once, as its first request; after that it asks for
    order books and for the details of slugs that were not cached when it
    started, and for nothing else. *)
Theorem scan_requests_only_what_it_needs progress_callback st out st' :
  run_scan w progress_callback st = Ok (out, st') ->
  exists new,
    sends st'
    = sends st
      ++ match all_items_data st with
         | [] => [(send_time st, ITEMS_URL)]
         | _ :: _ => []
         end
      ++ new /\
    Forall (fun tu => needed_request (item_cache st) (snd tu)) new.
Proof.
  rewrite run_scan_spec.
  destruct (initialize_items w st) as [[[] st0]|e] eqn:Hinit; [|done].
  destruct (evaluate_all w (List.filter is_prime_set (all_items_data st0)) st0)
    as [[outcomes st1]|e] eqn:Hall; [|done].
  intros [= _ <-].
  apply initialize_items_effect in Hinit as [Hcache Hinit].
  assert (only_needed st0 st1) as [_ (new & Hsends & Hnew)].
  { revert Hall. apply (evaluate_all_inv w (only_needed st0)).
    - intros. by eapply only_needed_details.
    - intros. by eapply only_needed_orders.
    - split; [done|]. exists []. by rewrite app_nil_r. }
  exists new. rewrite Hcache in Hnew. split; [|done]. rewrite Hsends.
  destruct (all_items_data st) as [|item items]; [|by subst].
  destruct Hinit as (items & st2 & Hitems & Hs & _).
  apply get_all_items_effect in Hitems as [Hs2 _].
  by rewrite Hs, Hs2, <- app_assoc.
Qed.

Lemma run_scan_rate_limited progress_callback st out st' :
  responsive w ->
  rate_limited st ->
  run_scan w progress_callback st = Ok (out, st') ->
  rate_limited st'.
Proof.
  intros Hw. apply run_scan_inv.
  - intros url_name st1 details st2 Hst1. by apply get_item_details_rate_limited.
  - intros url_name st1 orders st2 Hst1. by apply get_orders_rate_limited.
  - intros st1 st2 Hst1 Hinit.
    apply initialize_items_effect in Hinit as [_ Hinit].
    destruct (all_items_data st1) as [|item items]; [|by subst].
    destruct Hinit as (items & st3 & Hitems & Hs & Ht & _).
    apply get_all_items_rate_limited in Hitems; [|done..].
    unfold rate_limited. by rewrite Hs, Ht.
Qed.

(** X9: on a service that answers every request, the requests of a scan
    keep their distance: if the send log was spaced when the scan
    started, with the timestamp not before the last send, it is spaced
    when the scan returns. *)
Theorem scan_rate_limited progress_callback st out st' :
  responsive w ->
  rate_limited st ->
  run_scan w progress_callback st = Ok (out, st') ->
  rate_limited st'.
Proof. apply run_scan_rate_limited. Qed.

End Requests.

(** ** Edges of the client and of the scan *)

Section Edges.
Context (w : World).

(** X10: when the item list cannot be had, or comes back empty, a scan
    that starts with no list returns no results after its single request,
    and the list stays empty, so that the next scan asks again. *)
Theorem scan_without_item_list progress_callback st st1 :
  all_items_data st = [] ->
  get_all_items w st = Ok ([], st1) ->
  exists st',
    run_scan w progress_callback st = Ok (([], []), st') /\
    sends st' = sends st ++ [(send_time st, ITEMS_URL)] /\
    all_items_data st' = [] /\
    all_items_map st' = all_items_map st /\
    item_cache st' = item_cache st.
Proof.
  intros Hdata Hitems.
  pose proof (get_all_items_effect _ _ _ _ Hitems) as (Hs & Hc & Hm & Hd).
  rewrite run_scan_spec.
  unfold initialize_items, bind at 1, gets. cbv beta. rewrite Hdata.
  rewrite (bind_eq _ _ _ _ _ Hitems). unfold bind, modify. simpl.
  destruct progress_callback; eexists; (split; [reflexivity|]); simpl;
    by rewrite Hs, Hm, Hc.
Qed.

(** X11: two things are not absorbed.  An exception of [session.get]
    that is not a [RequestException] leaves [_get] and the operation that
    called it; and a response that passes [raise_for_status] with a
    non-empty JSON body without ['data'] makes the operation raise
    [KeyError].  In a scan that has to load the item list, either one
    ends the scan with that exception. *)
Theorem scan_raises_what_is_not_absorbed progress_callback st :
  all_items_data st = [] ->
  (forall e,
     serve w ITEMS_URL (length (sends st)) = GetRaises e ->
     is_RequestException e = false ->
     get_all_items w st = Raise e /\
     run_scan w progress_callback st = Raise e) /\
  (forall status_code,
     serve w ITEMS_URL (length (sends st)) = Response status_code (Some JNoData) ->
     raise_for_status status_code = None ->
     get_all_items w st = Raise (KeyError "data") /\
     run_scan w progress_callback st = Raise (KeyError "data")).
Proof.
  intros Hdata.
  assert (forall e, get_all_items w st = Raise e ->
                    run_scan w progress_callback st = Raise e) as Hscan.
  { intros e He. unfold run_scan, initialize_items, bind, gets. cbv beta.
    by rewrite Hdata, He. }
  split.
  - intros e Hserve He.
    assert (get_all_items w st = Raise e) as Hitems.
    { unfold get_all_items, bind. rewrite _get_cases, Hserve.
      unfold except_RequestException. by rewrite He. }
    split; [done|by apply Hscan].
  - intros status_code Hserve Hstatus.
    assert (get_all_items w st = Raise (KeyError "data")) as Hitems.
    { unfold get_all_items, bind. rewrite _get_cases, Hserve. simpl.
      by rewrite Hstatus. }
    split; [done|by apply Hscan].
Qed.

(** X12: a response that passes [raise_for_status] with an empty JSON
    document ([{}], [null], ...) counts as no data: the list operations
    return the empty list, and [get_item_details] returns [None] and
    caches nothing, so the next call for that slug sends a request
    again. *)
Theorem empty_document_is_no_data st status_code :
  raise_for_status status_code = None ->
  (serve w ITEMS_URL (length (sends st)) = Response status_code (Some JFalsy) ->
   exists st', get_all_items w st = Ok ([], st')) /\
  (forall url_name,
     serve w (ORDERS_URL url_name) (length (sends st))
       = Response status_code (Some JFalsy) ->
     exists st', get_orders w url_name st = Ok ([], st')) /\
  (forall url_name,
     item_cache st !! url_name = None ->
     serve w (ITEM_URL url_name) (length (sends st))
       = Response status_code (Some JFalsy) ->
     exists st',
       get_item_details w url_name st = Ok (None, st') /\
       item_cache st' !! url_name = None /\
       length (sends st') = S (length (sends st))).
Proof.
  intros Hstatus. split; [|split].
  - intros Hserve. unfold get_all_items, bind.
    rewrite _get_cases, Hserve. simpl. rewrite Hstatus. by eexists.
  - intros url_name Hserve. unfold get_orders, bind.
    rewrite _get_cases, Hserve. simpl. rewrite Hstatus. by eexists.
  - intros url_name Hc Hserve. rewrite get_item_details_miss by done.
    unfold bind. rewrite _get_cases, Hserve. simpl. rewrite Hstatus.
    eexists. split; [reflexivity|]. simpl. split; [done|].
    rewrite length_app. simpl. lia.
Qed.

End Edges.

(** ** The requests and the lines of one evaluation *)

Section Lines.
Context (w : World).

Lemma books_priced_sends slugs prices st st' :
  books_priced w slugs prices st st' ->
  map snd (sends st') = map snd (sends st) ++ map ORDERS_URL slugs.
Proof.
  revert prices st. induction slugs as [|slug slugs IH]; intros prices st.
  - destruct prices; [|done]. simpl. intros ->. by rewrite app_nil_r.
  - destruct prices as [|p prices]; [done|].
    intros (orders & st1 & Ho & _ & _ & Hrest).
    apply get_orders_effect in Ho as [Hs _].
    rewrite (IH _ _ Hrest), Hs, map_app. simpl. by rewrite <- app_assoc.
Qed.

(** X13: an evaluation with [n] lines has cost exactly [n + 1] order-book
    requests once root and components were settled: one for the root,
    then one for each component, in the order of the lines. *)
Theorem evaluation_order_book_requests set_item_summary st ev st' :
  calculate_set_profit w set_item_summary st = Ok (Some ev, st') ->
  exists root comps st2,
    resolves w set_item_summary st root comps st2 /\
    length comps = length (components ev) /\
    map snd (sends st')
    = map snd (sends st2)
      ++ ORDERS_URL (d_slug root) :: map (fun c => ORDERS_URL (d_slug c)) comps.
Proof.
  intros (root & comps & st2 & Hres & Hprice)%calculate_set_profit_Some.
  apply price_set_Some in Hprice as (_ & Hbooks & Hnames & _).
  exists root, comps, st2. split; [done|]. split.
  - by rewrite <- (length_map d_name), <- Hnames, length_map.
  - rewrite (books_priced_sends _ _ _ _ Hbooks). simpl. by rewrite map_map.
Qed.

Lemma components_loop_lines components total_cost component_data st
    total_cost' component_data' st' :
  components_loop w components total_cost component_data st
    = Ok (Some (total_cost', component_data'), st') ->
  Forall well_formed_line component_data ->
  Forall well_formed_line component_data'.
Proof.
  revert total_cost component_data st.
  induction components as [|comp components IH];
    intros total_cost component_data st.
  - by intros [= _ <- _].
  - rewrite components_loop_cons.
    destruct (get_orders w (d_slug comp) st) as [[orders st1]|e]; [|done].
    destruct (get_lowest_sell_price orders) as [p|]; [|done].
    intros Hloop Hdata. eapply IH; [exact Hloop|].
    apply Forall_app. split; [done|]. constructor; [|done].
    split; [|done]. simpl. unfold quantity_of.
    destruct (quantityInSet comp) as [q|]; simpl; [|done].
    destruct (Z.eqb_spec q 0); done.
Qed.

Lemma calculate_set_profit_lines set_item_summary st ev st' :
  calculate_set_profit w set_item_summary st = Ok (Some ev, st') ->
  Forall well_formed_line (components ev).
Proof.
  intros (root & comps & st2 & _ & Hprice)%calculate_set_profit_Some.
  rewrite price_set_spec in Hprice.
  destruct (get_orders w (d_slug root) st2) as [[orders st3]|e]; [|done].
  destruct (get_lowest_sell_price orders) as [p|]; [|done].
  destruct (components_loop w comps 0 [] st3)
    as [[[[total_cost component_data]|] st4]|e] eqn:Hloop; try done.
  injection Hprice as <- <-. simpl.
  by eapply components_loop_lines.
Qed.

(** X14: every line of every evaluation has a quantity other than zero
    (a component whose quantity is absent, null or zero counts once),
    and its text is made of that quantity, the unit price and their
    product. *)
Theorem evaluation_lines_well_formed set_item_summary st ev st' :
  calculate_set_profit w set_item_summary st = Ok (Some ev, st') ->
  Forall well_formed_line (components ev).
Proof. apply calculate_set_profit_lines. Qed.

End Lines.

(** ** The candidates of a scan *)

Lemma append_cons a s t : String a s +:+ t = String a (s +:+ t).
Proof. reflexivity. Qed.

Lemma append_nil t : EmptyString +:+ t = t.
Proof. reflexivity. Qed.

Lemma prefix_spec sub s :
  String.prefix sub s = true <-> exists post, s = sub +:+ post.
Proof.
  revert s. induction sub as [|a sub IH]; intros s.
  - split; [|by destruct s]. intros _. by exists s.
  - destruct s as [|b s]; simpl.
    + split; [done|]. intros [post Hpost]. by rewrite append_cons in Hpost.
    + destruct (Ascii.ascii_dec a b) as [<-|Hne].
      * rewrite IH. split; intros [post Hpost]; exists post;
          rewrite append_cons in *; congruence.
      * split; [done|]. intros [post Hpost].
        rewrite append_cons in Hpost. congruence.
Qed.

Lemma contains_spec sub s :
  Py.contains sub s = true <-> exists pre post, s = pre +:+ sub +:+ post.
Proof.
  induction s as [|b s IH].
  - cbn [Py.contains]. rewrite orb_false_r, prefix_spec. split.
    + intros [post ->]. by exists EmptyString, post.
    + intros (pre & post & Hs). destruct pre as [|c pre].
      * rewrite append_nil in Hs. by exists post.
      * by rewrite append_cons in Hs.
  - cbn [Py.contains]. rewrite orb_true_iff, prefix_spec, IH. split.
    + intros [[post ->]|(pre & post & ->)].
      * by exists EmptyString, post.
      * by exists (String b pre), post.
    + intros (pre & post & Hs). destruct pre as [|c pre].
      * left. rewrite append_nil in Hs. by exists post.
      * right. rewrite append_cons in Hs. injection Hs as -> ->.
        by exists pre, post.
Qed.

Lemma is_prime_set_iff (i : item_summary) :
  is_prime_set i = true <->
  exists pre post, sm_name i = Some (pre +:+ "Prime Set" +:+ post).
Proof.
  unfold is_prime_set. rewrite contains_spec.
  destruct (sm_name i) as [nm|]; simpl.
  - split; intros (pre & post & H); exists pre, post; congruence.
  - split; intros (pre & post & H); [|done].
    destruct pre; [by rewrite append_nil in H|by rewrite append_cons in H].
Qed.

(** X15: the candidates of a scan are the items that have a name in
    which the text "Prime Set" occurs, in this spelling; an item without
    a name is no candidate. *)
Theorem is_prime_set_spec (i : item_summary) :
  is_prime_set i = true <->
  exists pre post, sm_name i = Some (pre +:+ "Prime Set" +:+ post).
Proof. apply is_prime_set_iff. Qed.

(** X16: with a loaded item list in which no name has "Prime Set" in
    it, a scan does nothing: it returns no results, sends no request and
    leaves the state, the clock included, as it was. *)
Theorem scan_without_candidates w progress_callback st :
  all_items_data st <> [] ->
  (forall i pre post,
     In i (all_items_data st) ->
     sm_name i <> Some (pre +:+ "Prime Set" +:+ post)) ->
  run_scan w progress_callback st = Ok (([], []), st).
Proof.
  intros Hloaded Hnames.
  assert (List.filter is_prime_set (all_items_data st) = []) as Hnone.
  { revert Hnames. clear Hloaded. generalize (all_items_data st) as l.
    induction l as [|i l IH]; intros Hnames; [done|]. simpl.
    destruct (is_prime_set i) eqn:Hi.
    - apply is_prime_set_iff in Hi as (pre & post & Hi).
      by destruct (Hnames i pre post (or_introl eq_refl)).
    - apply IH. intros j pre post Hj. apply Hnames. by right. }
  rewrite run_scan_spec.
  unfold initialize_items, bind, gets. cbv beta.
  destruct (all_items_data st) as [|item items] eqn:Hdata; [done|].
  unfold ret. rewrite Hdata, Hnone. simpl. by destruct progress_callback.
Qed.

(** ** How long a scan takes *)

Lemma spaced_app_r times1 times2 : spaced (times1 ++ times2) -> spaced times2.
Proof.
  induction times1 as [|t1 [|t2 times1] IH]; [done| |].
  - simpl. destruct times2; [done|]. by intros [_ H].
  - intros [_ H]. by apply IH.
Qed.

Lemma spaced_span t1 times tl :
  spaced (t1 :: times) ->
  last (t1 :: times) = Some tl ->
  REQUEST_DELAY * Z.of_nat (length times) <= tl - t1.
Proof.
  revert t1. induction times as [|t2 times IH]; intros t1 Hsp Hlast.
  - injection Hlast as <-. simpl. lia.
  - destruct Hsp as [H12 Hsp]. rewrite last_cons_cons in Hlast.
    specialize (IH t2 Hsp Hlast). simpl length. lia.
Qed.

Section Duration.
Context (w : World) (Hw : responsive w).

Lemma _get_timed u st0 st r st' :
  timed st0 st -> _get w u st = Ok (r, st') -> timed st0 st'.
Proof.
  intros (Hlast & Hnow & new & Hsends & Hnew) Hget.
  destruct (Hw u (length (sends st))) as [(status_code & body & Hs) Hlat].
  pose proof (_get_sends _ _ _ _ _ Hget) as Hsends'.
  pose proof (_get_response_time _ _ _ _ _ _ _ Hs Hget) as Htime.
  assert (now st <= send_time st) as Hsend.
  { unfold send_time.
    destruct (Z.ltb_spec (now st - last_request_time st) REQUEST_DELAY); lia. }
  assert (now st' = send_time st + latency w (length (sends st))) as Hnow'.
  { revert Hget. rewrite _get_cases, Hs. unfold except_RequestException. simpl.
    destruct (raise_for_status status_code) as [e|].
    - destruct (is_RequestException e); [|done]. by intros [= _ <-].
    - destruct body; by intros [= _ <-]. }
  split; [lia|]. split; [lia|].
  exists (new ++ [(send_time st, u)]).
  rewrite Hsends', Hsends, <- app_assoc. split; [done|].
  apply Forall_app. split; [done|]. constructor; [simpl; lia|done].
Qed.

(** The clock, the timestamp and the send log say whether [timed]
    holds. *)
Lemma timed_same st0 st st' :
  now st' = now st -> last_request_time st' = last_request_time st ->
  sends st' = sends st -> timed st0 st -> timed st0 st'.
Proof. unfold timed. by intros -> -> ->. Qed.

Lemma get_orders_timed url_name st0 st orders st' :
  timed st0 st -> get_orders w url_name st = Ok (orders, st') -> timed st0 st'.
Proof.
  intros Hst. unfold get_orders, bind.
  destruct (_get w (ORDERS_URL url_name) st) as [[data st1]|e] eqn:Hget; [|done].
  pose proof (_get_timed _ _ _ _ _ Hst Hget) as Hst1.
  destruct data as [[| |]|]; simpl; try done; by intros [= _ <-].
Qed.

Lemma get_all_items_timed st0 st items st' :
  timed st0 st -> get_all_items w st = Ok (items, st') -> timed st0 st'.
Proof.
  intros Hst. unfold get_all_items, bind.
  destruct (_get w ITEMS_URL st) as [[data st1]|e] eqn:Hget; [|done].
  pose proof (_get_timed _ _ _ _ _ Hst Hget) as Hst1.
  destruct data as [[| |]|]; simpl; try done; by intros [= _ <-].
Qed.

Lemma get_item_details_timed url_name st0 st details st' :
  timed st0 st ->
  get_item_details w url_name st = Ok (details, st') -> timed st0 st'.
Proof.
  intros Hst.
  destruct (item_cache st !! url_name) as [cached|] eqn:Hc.
  - rewrite (get_item_details_hit _ _ _ _ Hc). by intros [= _ <-].
  - rewrite get_item_details_miss by done. unfold bind at 1.
    destruct (_get w (ITEM_URL url_name) st) as [[data st1]|e] eqn:Hget; [|done].
    pose proof (_get_timed _ _ _ _ _ Hst Hget) as Hst1.
    destruct data as [[| |]|]; simpl; try done; by intros [= _ <-].
Qed.

Lemma run_scan_timed progress_callback st out st' :
  last_request_time st <= now st ->
  run_scan w progress_callback st = Ok (out, st') ->
  timed st st'.
Proof.
  intros Hlast. apply (run_scan_inv w (timed st)).
  - intros url_name st1 details st2. apply get_item_details_timed.
  - intros url_name st1 orders st2. apply get_orders_timed.
  - intros st1 st2 Hst1 Hinit.
    apply initialize_items_effect in Hinit as [_ Hinit].
    destruct (all_items_data st1) as [|item items]; [|by subst].
    destruct Hinit as (items & st3 & Hitems & Hs & Ht & _ & _ & Hn).
    pose proof (get_all_items_timed _ _ _ _ Hst1 Hitems) as Hst3.
    by apply (timed_same _ st3).
  - split; [done|]. split; [done|]. exists []. by rewrite app_nil_r.
Qed.

(** X17: on a service that answers every request, a scan that sends [n]
    requests takes at least [n - 1] times [REQUEST_DELAY], whatever the
    service's speed, when it starts with a timestamp that is not in the
    future and a spaced send log. *)
Theorem scan_takes_time progress_callback st out st' :
  last_request_time st <= now st ->
  rate_limited st ->
  run_scan w progress_callback st = Ok (out, st') ->
  exists new,
    sends st' = sends st ++ new /\
    REQUEST_DELAY * (Z.of_nat (length new) - 1) <= now st' - now st.
Proof.
  intros Hlast Hrate Hscan.
  pose proof (run_scan_timed _ _ _ _ Hlast Hscan)
    as (Hlast' & Hnow & new & Hsends & Hnew).
  pose proof (run_scan_rate_limited w _ _ _ _ Hw Hrate Hscan) as [Hsp Hlog].
  exists new. split; [done|].
  rewrite Hsends, map_app in Hsp, Hlog. apply spaced_app_r in Hsp.
  destruct new as [|[t1 u1] new]; [simpl; unfold REQUEST_DELAY; lia|].
  apply Forall_cons in Hnew as [Ht1 _]. simpl in Ht1.
  destruct (last (map fst ((t1, u1) :: new))) as [tl|] eqn:Htl;
    [|by apply last_None in Htl].
  pose proof (spaced_span t1 (map fst new) tl Hsp Htl) as Hspan.
  assert (tl <= last_request_time st') as Hle.
  { apply Hlog. rewrite last_app, Htl. done. }
  rewrite length_map in Hspan. simpl length.
  unfold REQUEST_DELAY in *. lia.
Qed.

End Duration.

(** ** What is in a result *)

Lemma evaluate_all_In w target_sets st outcomes st' ev :
  evaluate_all w target_sets st = Ok (outcomes, st') ->
  In (Some ev) outcomes ->
  exists item st1 st2,
    In item target_sets /\
    calculate_set_profit w item st1 = Ok (Some ev, st2).
Proof.
  revert st outcomes. induction target_sets as [|item target_sets IH];
    intros st outcomes Hall Hin.
  - injection Hall as <- <-. done.
  - rewrite evaluate_all_cons in Hall.
    destruct (calculate_set_profit w item st) as [[res st1]|e] eqn:Hcalc; [|done].
    destruct (evaluate_all w target_sets st1) as [[rest st2]|e] eqn:Hrest; [|done].
    injection Hall as <- <-. destruct Hin as [->|Hin].
    + exists item, st, st1. split; [by left|done].
    + destruct (IH _ _ Hrest Hin) as (item' & st3 & st4 & Hitem & Hcalc').
      exists item', st3, st4. split; [by right|done].
Qed.

(** X18: every evaluation in the list a scan returns, and in every list
    it passes to the callback, is the evaluation of an item of the list
    whose name has "Prime Set" in it, sells for more than its lines
    cost, and has figures that agree: profit is set price less cost, cost
    is the sum of the lines, the trade count is the sum of the quantities
    plus one, and every line is well formed. *)
Theorem scan_results_consistent w progress_callback st results delivered st' :
  run_scan w progress_callback st = Ok ((results, delivered), st') ->
  forall ev,
    In ev results \/ (exists snapshot, In snapshot delivered /\ In ev snapshot) ->
    consistent ev /\
    exists item st1 st2,
      In item (all_items_data st') /\
      is_prime_set item = true /\
      calculate_set_profit w item st1 = Ok (Some ev, st2).
Proof.
  intros Hscan.
  assert (forall st1 st2, same_catalog st1 st2 ->
            all_items_data st2 = all_items_data st1) as Hsame by (by intros ?? [_ ?]).
  pose proof Hscan as Hscan'. rewrite run_scan_spec in Hscan'.
  destruct (initialize_items w st) as [[[] st0]|e] eqn:Hinit; [|done].
  destruct (evaluate_all w (List.filter is_prime_set (all_items_data st0)) st0)
    as [[outcomes st1]|e] eqn:Hall; [|done].
  injection Hscan' as <- <- <-.
  assert (all_items_data st1 = all_items_data st0) as Hdata.
  { apply Hsame. revert Hall.
    apply (evaluate_all_inv w (same_catalog st0)).
    - intros url_name sa details sb [Hm Hd] [[Hmap Hdata] _]%get_item_details_step.
      split; congruence.
    - intros url_name sa orders sb [Hm Hd] (_ & _ & Hmap & Hdata)%get_orders_effect.
      split; congruence.
    - by split. }
  intros ev Hev.
  assert (In (Some ev) outcomes /\ 0 < profit ev) as [Hin Hpos].
  { apply profitable_In. destruct Hev as [Hev|(snapshot & Hsnap & Hev)].
    - eapply Permutation_in in Hev; [|apply fold_insert_result_perm]. done.
    - destruct progress_callback; [|done].
      destruct (profitable outcomes) as [|res new] eqn:Hnew; [done|].
      apply (snapshots_In [] (res :: new)); [done|]. by exists snapshot. }
  destruct (evaluate_all_In _ _ _ _ _ _ Hall Hin)
    as (item & sa & sb & [Hitem Hprime]%filter_In & Hcalc).
  split.
  - pose proof Hcalc as (root & comps & sc & _ & Hprice)%calculate_set_profit_Some.
    apply price_set_Some in Hprice as (_ & _ & _ & _ & Hcost & Hprofit & Htrades).
    pose proof (calculate_set_profit_lines _ _ _ _ _ Hcalc) as Hlines.
    unfold consistent. repeat split; try done. lia.
  - exists item, sa, sb. by rewrite Hdata.
Qed.

(** ** The wait before a request *)

(** X19: when the timestamp is not in the future, [_get] sends its
    request no earlier than now and no later than [REQUEST_DELAY] from
    now, at least [REQUEST_DELAY] after the timestamp, and at once when
    that much time has passed since the timestamp. *)
Theorem get_waits_at_most_the_delay w u st r st' :
  last_request_time st <= now st ->
  _get w u st = Ok (r, st') ->
  exists t,
    sends st' = sends st ++ [(t, u)] /\
    now st <= t <= now st + REQUEST_DELAY /\
    last_request_time st + REQUEST_DELAY <= t /\
    (REQUEST_DELAY <= now st - last_request_time st -> t = now st).
Proof.
  intros Hlast Hget. exists (send_time st).
  split; [by eapply _get_sends|].
  unfold send_time, REQUEST_DELAY in *.
  destruct (Z.ltb_spec (now st - last_request_time st) 340); lia.
Qed.

(** ** A set whose parts are not in the item list *)

Section Unresolved.
Context (w : World).

Lemma fetched_parts_self parts_ids st url_name details :
  item_cache st !! url_name = Some details ->
  (forall pid, In pid parts_ids ->
     all_items_map st !! pid = None \/
     all_items_map st !! pid = Some url_name) ->
  exists fetched,
    fetched_parts w parts_ids st = Ok (fetched, st) /\
    Forall (fun p => p = details) fetched.
Proof.
  intros Hc. induction parts_ids as [|pid parts_ids IH]; intros Hids.
  - by exists [].
  - destruct IH as (fetched & Hf & Hall).
    { intros pid' Hpid'. apply Hids. by right. }
    rewrite fetched_parts_cons.
    destruct (Hids pid (or_introl eq_refl)) as [->| ->]; [by exists fetched|].
    rewrite (get_item_details_hit _ _ _ _ Hc), Hf.
    exists (details :: fetched). split; [done|]. by constructor.
Qed.

(** X20: if the candidate carries the root flag and each of its declared
    part ids is either missing from the id index or the candidate's own
    id, the candidate is evaluated as a set without components: with a
    valid sell order for it, the evaluation has cost 0, a profit equal to
    the set price, one trade and no lines. *)
Theorem set_without_resolved_parts
    set_item_summary st set_details st1 parts_ids orders st2 p :
  get_item_details w (sm_slug set_item_summary) st = Ok (Some set_details, st1) ->
  setParts set_details = Some parts_ids ->
  is_set_root set_details = true ->
  (forall pid, In pid parts_ids ->
     all_items_map st !! pid = None \/
     all_items_map st !! pid = Some (sm_slug set_item_summary)) ->
  get_orders w (d_slug set_details) st1 = Ok (orders, st2) ->
  get_lowest_sell_price orders = Platinum p ->
  calculate_set_profit w set_item_summary st
  = Ok (Some {| name := d_name set_details;
                set_price := p;
                cost := 0;
                profit := p;
                trades := 1;
                components := [] |}, st2).
Proof.
  intros Hd Hparts Hroot Hids Horders Hprice.
  pose proof (get_item_details_step _ _ _ _ _ Hd) as [[Hmap _] Heff].
  assert (item_cache st1 !! sm_slug set_item_summary = Some set_details) as Hc.
  { destruct (item_cache st !! sm_slug set_item_summary) as [cached|] eqn:Hc.
    - destruct Heff as [[= ->] ->]. done.
    - destruct Heff as [_ ->]. apply lookup_insert_eq. }
  destruct (fetched_parts_self parts_ids st1 _ _ Hc) as (fetched & Hf & Hall).
  { intros pid Hpid. rewrite Hmap. by apply Hids. }
  rewrite calculate_set_profit_spec, Hd, Hparts, Hf. clear Hd.
  assert (unflagged fetched = []) as ->.
  { unfold unflagged. clear Hf. induction Hall as [|q l -> _ IH]; [done|].
    simpl. rewrite Hroot. simpl. exact IH. }
  assert (resolve_root set_details (flagged_root None fetched) = Some set_details)
    as ->.
  { unfold resolve_root, flagged_root.
    destruct (last (List.filter is_set_root fetched)) as [root|] eqn:Hl;
      [|by rewrite Hroot].
    f_equal. apply last_Some in Hl as [l' Hl].
    assert (In root (List.filter is_set_root fetched)) as Hin
      by (rewrite Hl; apply in_app_iff; right; by left).
    apply filter_In in Hin as [Hin _].
    rewrite List.Forall_forall in Hall. by apply Hall. }
  rewrite price_set_spec, Horders, Hprice. simpl.
  unfold ret. by rewrite Z.sub_0_r.
Qed.

End Unresolved.

(** ** The properties at work in the scenarios *)

Lemma static_world_responsive items details books lat :
  0 <= lat -> responsive (Scenario.static_world items details books lat).
Proof.
  intros Hlat u n. split; [|done].
  destruct u as [|url_name|url_name]; simpl.
  - by eexists _, _.
  - destruct (Scenario.find url_name details); by eexists _, _.
  - destruct (Scenario.find url_name books); by eexists _, _.
Qed.

Lemma rate_limited_init t : rate_limited (init_state t).
Proof. split; [done|]. by intros t0. Qed.

Lemma indexed_init t : indexed (init_state t).
Proof. intros id. apply lookup_empty. Qed.

Lemma scan_is_one_stable_sort_witness :
  exists st0 outcomes,
    initialize_items Scenario.market_world Scenario.fresh = Ok (tt, st0) /\
    evaluate_all Scenario.market_world
      (List.filter is_prime_set (all_items_data st0)) st0
      = Ok (outcomes, Scenario.market_scanned) /\
    Scenario.market_results = Py.sort_by cost (profitable outcomes) /\
    (forall c,
       List.filter (fun ev => cost ev =? c) Scenario.market_results
       = List.filter (fun ev => cost ev =? c) (profitable outcomes)) /\
    (true = true ->
     Scenario.market_delivered
     = map (fun k => Py.sort_by cost (take k (profitable outcomes)))
           (seq 1 (length (profitable outcomes)))).
Proof.
  apply (scan_is_one_stable_sort Scenario.market_world true Scenario.fresh).
  vm_compute. reflexivity.
Defined.

Lemma get_orders_always_requests_witness :
  let w := Scenario.alpha_world in
  let st := Scenario.alpha_loaded in
  let st' := Scenario.state_after (get_orders w "alpha_prime_barrel") st in
  sends st' = sends st ++ [(send_time st, ORDERS_URL "alpha_prime_barrel")] /\
  item_cache st' = item_cache st /\
  same_catalog st st'.
Proof.
  intros w st st'.
  apply (get_orders_always_requests w "alpha_prime_barrel" st
           [ mk_order "sell" 40 "online"; mk_order "buy" 45 "ingame" ] st').
  vm_compute. reflexivity.
Defined.

Lemma get_item_details_effect_witness :
  let w := Scenario.alpha_world in
  let st := Scenario.alpha_loaded in
  let st' := Scenario.state_after (get_item_details w "alpha_prime_barrel") st in
  same_catalog st st' /\
  match item_cache st !! "alpha_prime_barrel"%string with
  | Some cached => Some Scenario.alpha_barrel = Some cached /\ st' = st
  | None =>
      sends st' = sends st ++ [(send_time st, ITEM_URL "alpha_prime_barrel")] /\
      item_cache st'
      = <["alpha_prime_barrel"%string := Scenario.alpha_barrel]> (item_cache st)
  end.
Proof.
  intros w st st'.
  apply (get_item_details_effect w "alpha_prime_barrel" st
           (Some Scenario.alpha_barrel) st').
  vm_compute. reflexivity.
Defined.

Lemma index_follows_item_list_witness :
  indexed Scenario.market_scanned /\
  (all_items_data Scenario.fresh <> [] ->
   same_catalog Scenario.fresh Scenario.market_scanned).
Proof.
  apply (index_follows_item_list Scenario.market_world true Scenario.fresh
           (Scenario.market_results, Scenario.market_delivered)).
  - apply indexed_init.
  - vm_compute. reflexivity.
Defined.

Lemma scan_cache_grows_witness :
  item_cache Scenario.forma_cached !! "forma"%string
  = Some (mk_details "forma" "Forma" None None None) /\
  item_cache Scenario.forma_then_scanned !! "beta_prime_blade"%string
  = Some (mk_details "beta_prime_blade" "Beta Prime Blade" None (Some false) (Some 0)) /\
  get_item_details Scenario.market_world "forma" Scenario.forma_then_scanned
  = Ok (Some (mk_details "forma" "Forma" None None None),
        Scenario.forma_then_scanned) /\
  item_cache Scenario.forma_cached ⊆ item_cache Scenario.forma_then_scanned /\
  forall url_name cached,
    item_cache Scenario.forma_cached !! url_name = Some cached ->
    get_item_details Scenario.market_world url_name Scenario.forma_then_scanned
    = Ok (Some cached, Scenario.forma_then_scanned).
Proof.
  assert (item_cache Scenario.forma_cached !! "forma"%string
          = Some (mk_details "forma" "Forma" None None None)) as Hforma
    by (vm_compute; reflexivity).
  pose proof (scan_cache_grows Scenario.market_world true Scenario.forma_cached
                (Scenario.market_results, Scenario.market_delivered)
                Scenario.forma_then_scanned) as Hgrows.
  destruct Hgrows as [Hsub Hhit]; [vm_compute; reflexivity|].
  split; [exact Hforma|]. split; [vm_compute; reflexivity|].
  split; [exact (Hhit _ _ Hforma)|]. split; [exact Hsub|exact Hhit].
Defined.

Lemma scan_requests_only_what_it_needs_witness :
  exists new,
    sends Scenario.market_scanned
    = sends Scenario.fresh
      ++ match all_items_data Scenario.fresh with
         | [] => [(send_time Scenario.fresh, ITEMS_URL)]
         | _ :: _ => []
         end
      ++ new /\
    Forall (fun tu => needed_request (item_cache Scenario.fresh) (snd tu)) new.
Proof.
  apply (scan_requests_only_what_it_needs Scenario.market_world true
           Scenario.fresh (Scenario.market_results, Scenario.market_delivered)).
  vm_compute. reflexivity.
Defined.

Lemma scan_rate_limited_witness : rate_limited Scenario.market_scanned.
Proof.
  apply (scan_rate_limited Scenario.market_world true Scenario.fresh
           (Scenario.market_results, Scenario.market_delivered)).
  - apply static_world_responsive. lia.
  - apply rate_limited_init.
  - vm_compute. reflexivity.
Defined.

Lemma scan_without_item_list_witness :
  let w := Scenario.unreachable 5 in
  let st := Scenario.fresh in
  exists st',
    run_scan w true st = Ok (([], []), st') /\
    sends st' = sends st ++ [(send_time st, ITEMS_URL)] /\
    all_items_data st' = [] /\
    all_items_map st' = all_items_map st /\
    item_cache st' = item_cache st.
Proof.
  intros w st.
  apply (scan_without_item_list w true st
           (Scenario.state_after (get_all_items w) st)).
  - reflexivity.
  - vm_compute. reflexivity.
Defined.

Lemma scan_raises_what_is_not_absorbed_witness :
  let w := Scenario.broken_envelope in
  let st := Scenario.fresh in
  (forall e,
     serve w ITEMS_URL (length (sends st)) = GetRaises e ->
     is_RequestException e = false ->
     get_all_items w st = Raise e /\
     run_scan w true st = Raise e) /\
  (forall status_code,
     serve w ITEMS_URL (length (sends st)) = Response status_code (Some JNoData) ->
     raise_for_status status_code = None ->
     get_all_items w st = Raise (KeyError "data") /\
     run_scan w true st = Raise (KeyError "data")).
Proof.
  intros w st. apply (scan_raises_what_is_not_absorbed w true st). reflexivity.
Defined.

(** The two cases in the scenarios. *)
Lemma scans_that_raise :
  run_scan Scenario.broken_envelope true Scenario.fresh = Raise (KeyError "data") /\
  run_scan Scenario.interrupted true Scenario.fresh
  = Raise (OtherException "KeyboardInterrupt").
Proof. split; vm_compute; reflexivity. Qed.

Lemma empty_document_is_no_data_witness :
  let w := Scenario.empty_documents in
  let st := Scenario.fresh in
  (serve w ITEMS_URL (length (sends st)) = Response 200 (Some JFalsy) ->
   exists st', get_all_items w st = Ok ([], st')) /\
  (forall url_name,
     serve w (ORDERS_URL url_name) (length (sends st))
       = Response 200 (Some JFalsy) ->
     exists st', get_orders w url_name st = Ok ([], st')) /\
  (forall url_name,
     item_cache st !! url_name = None ->
     serve w (ITEM_URL url_name) (length (sends st))
       = Response 200 (Some JFalsy) ->
     exists st',
       get_item_details w url_name st = Ok (None, st') /\
       item_cache st' !! url_name = None /\
       length (sends st') = S (length (sends st))).
Proof.
  intros w st. apply (empty_document_is_no_data w st 200). reflexivity.
Defined.

Lemma evaluation_order_book_requests_witness :
  let w := Scenario.alpha_world in
  let st := Scenario.alpha_loaded in
  let st' := Scenario.state_after (calculate_set_profit w Scenario.alpha_set) st in
  exists root comps st2,
    resolves w Scenario.alpha_set st root comps st2 /\
    length comps = length (components Scenario.alpha_evaluation) /\
    map snd (sends st')
    = map snd (sends st2)
      ++ ORDERS_URL (d_slug root) :: map (fun c => ORDERS_URL (d_slug c)) comps.
Proof.
  intros w st st'.
  apply (evaluation_order_book_requests w Scenario.alpha_set st
           Scenario.alpha_evaluation st').
  vm_compute. reflexivity.
Defined.

Lemma evaluation_lines_well_formed_witness :
  Forall well_formed_line (components Scenario.alpha_evaluation).
Proof.
  apply (evaluation_lines_well_formed Scenario.alpha_world Scenario.alpha_set
           Scenario.alpha_loaded Scenario.alpha_evaluation
           (Scenario.state_after
              (calculate_set_profit Scenario.alpha_world Scenario.alpha_set)
              Scenario.alpha_loaded)).
  vm_compute. reflexivity.
Defined.

Lemma scan_without_candidates_witness :
  run_scan Scenario.parts_only true Scenario.parts_only_loaded
  = Ok (([], []), Scenario.parts_only_loaded).
Proof.
  apply scan_without_candidates.
  - vm_compute. discriminate.
  - intros i pre post Hi Hname.
    assert (is_prime_set i = true) as Hprime
      by (apply is_prime_set_iff; by exists pre, post).
    clear Hname. vm_compute in Hi.
    destruct Hi as [<-|[<-|[<-|[]]]]; vm_compute in Hprime; discriminate.
Defined.

Lemma scan_takes_time_witness :
  exists new,
    sends Scenario.market_scanned = sends Scenario.fresh ++ new /\
    REQUEST_DELAY * (Z.of_nat (length new) - 1)
    <= now Scenario.market_scanned - now Scenario.fresh.
Proof.
  apply (scan_takes_time Scenario.market_world
           (static_world_responsive _ _ _ 400 ltac:(lia)) true Scenario.fresh
           (Scenario.market_results, Scenario.market_delivered)).
  - vm_compute. discriminate.
  - apply rate_limited_init.
  - vm_compute. reflexivity.
Defined.

Lemma scan_results_consistent_witness :
  consistent Scenario.beta_evaluation /\
  exists item st1 st2,
    In item (all_items_data Scenario.market_scanned) /\
    is_prime_set item = true /\
    calculate_set_profit Scenario.market_world item st1
    = Ok (Some Scenario.beta_evaluation, st2).
Proof.
  apply (scan_results_consistent Scenario.market_world true Scenario.fresh
           Scenario.market_results Scenario.market_delivered
           Scenario.market_scanned).
  - vm_compute. reflexivity.
  - left. simpl. by left.
Defined.

Lemma get_waits_at_most_the_delay_witness :
  let w := Scenario.alpha_world in
  let st := Scenario.alpha_loaded in
  let st' := Scenario.state_after (_get w (ORDERS_URL "alpha_prime_set")) st in
  exists t,
    sends st' = sends st ++ [(t, ORDERS_URL "alpha_prime_set")] /\
    now st <= t <= now st + REQUEST_DELAY /\
    last_request_time st + REQUEST_DELAY <= t /\
    (REQUEST_DELAY <= now st - last_request_time st -> t = now st).
Proof.
  intros w st st'.
  apply (get_waits_at_most_the_delay w (ORDERS_URL "alpha_prime_set") st
           (Some (JData
              [ mk_order "sell" 320 "ingame"; mk_order "sell" 250 "offline";
                mk_order "buy" 400 "online"; mk_order "sell" 300 "online" ]))
           st').
  - vm_compute. discriminate.
  - vm_compute. reflexivity.
Defined.

Lemma set_without_resolved_parts_witness :
  let w := Scenario.set_only in
  let st := Scenario.set_only_loaded in
  let st1 := Scenario.state_after (get_item_details w "alpha_prime_set") st in
  let st2 := Scenario.state_after (get_orders w "alpha_prime_set") st1 in
  calculate_set_profit w Scenario.alpha_set st
  = Ok (Some {| name := "Alpha Prime";
                set_price := 300;
                cost := 0;
                profit := 300;
                trades := 1;
                components := [] |}, st2).
Proof.
  intros w st st1 st2.
  apply (set_without_resolved_parts w Scenario.alpha_set st Scenario.alpha_root
           st1 Scenario.alpha_parts
           [ mk_order "sell" 320 "ingame"; mk_order "sell" 250 "offline";
             mk_order "buy" 400 "online"; mk_order "sell" 300 "online" ] st2 300).
  - vm_compute. reflexivity.
  - reflexivity.
  - reflexivity.
  - intros pid Hpid. vm_compute in Hpid.
    destruct Hpid as [<-|[<-|[<-|[]]]]; vm_compute; auto.
  - vm_compute. reflexivity.
  - vm_compute. reflexivity.
Defined.
